(** * The retrieval-augmented advisory pipeline of [ecs-rag-pipeline]

    A shallow embedding of [chat.check_duplication] and of the workflow of
    [workflow.py] (planner, retriever, answer generation, the graph run and
    the write-back onto the event file), with the properties of the
    pipeline proved over it.

    Conventions of the embedding.
    - A Python [str] is a [string]; a character stands for one code point
      below 256.  The line-boundary and whitespace tables of [splitlines]
      and [strip] are the ones CPython uses in that range.
    - Python objects that the pipeline only passes along (field values of
      an event record, similarity scores) are kept abstract: a type with
      the three operations the code applies to them ([==], [None], the
      embedding of a [str]).
    - Mutable objects live in an explicit memory: sets of strings and
      single-pass iterators are reached through locations, so aliasing and
      in-place mutation are visible.
    - External collaborators (the chat model, the vector store) are
      functions of an environment; every call is appended to a log.
      The building of their clients ([chat.get_chat],
      [chat.build_or_load_chroma]) is taken to succeed: the embedding
      starts from clients that exist, and says nothing of a run in which
      one cannot be built.
    - [logging] calls have no effect on any value and are left out. *)

From Stdlib Require Import Ascii String.
From stdpp Require Import gmap strings list fin_maps.

#[local] Set Warnings "-clear-no-such-hyp".

(** ** Python [str] operations used by the planner *)

Module PyStr.

Definition code (c : ascii) : nat := nat_of_ascii c.

(** Line boundaries of [str.splitlines] below code point 256:
    LF, VT, FF, CR, FS, GS, RS and NEL. *)
Definition is_linebreak (c : ascii) : bool :=
  let n := code c in
  ((n =? 10) || (n =? 11) || (n =? 12) || (n =? 13)
   || (n =? 28) || (n =? 29) || (n =? 30) || (n =? 133))%nat.

(** [str.isspace] below code point 256: TAB..CR, FS..US, space, NEL
    and the no-break space. *)
Definition is_space (c : ascii) : bool :=
  let n := code c in
  (((9 <=? n) && (n <=? 13)) || ((28 <=? n) && (n <=? 32))
   || (n =? 133) || (n =? 160))%nat.

(** [str.lower] on one code point below 256. *)
Definition lower_char (c : ascii) : ascii :=
  let n := code c in
  if (((65 <=? n) && (n <=? 90))
      || ((192 <=? n) && (n <=? 214))
      || ((216 <=? n) && (n <=? 222)))%nat
  then ascii_of_nat (n + 32) else c.

Fixpoint lower (s : string) : string :=
  match s with
  | EmptyString => EmptyString
  | String c r => String (lower_char c) (lower r)
  end.

(** [s.splitlines()]: [cur] is the line being read, [after_cr] tells
    that the previous character was a CR, so that a LF right after it
    belongs to the same boundary.  No empty last line is produced. *)
Fixpoint splitlines_from (after_cr : bool) (cur : string) (s : string)
  : list string :=
  match s with
  | EmptyString => if decide (cur = "") then [] else [cur]
  | String c r =>
      if after_cr && (code c =? 10)%nat then splitlines_from false cur r
      else if is_linebreak c
           then cur :: splitlines_from (code c =? 13)%nat "" r
           else splitlines_from false (cur +:+ String c "") r
  end.

Definition splitlines (s : string) : list string :=
  splitlines_from false "" s.

Fixpoint lstrip (s : string) : string :=
  match s with
  | EmptyString => EmptyString
  | String c r => if is_space c then lstrip r else s
  end.

(** [s.rstrip()]: a character is dropped when it is whitespace and
    nothing is left after it. *)
Fixpoint rstrip (s : string) : string :=
  match s with
  | EmptyString => EmptyString
  | String c r =>
      match rstrip r with
      | EmptyString => if is_space c then EmptyString else String c ""
      | r' => String c r'
      end
  end.

Definition strip (s : string) : string := rstrip (lstrip s).

(** [s.startswith(p)] and its tuple form. *)
Definition startswith (s p : string) : bool := String.prefix p s.

Definition startswith_any (s : string) (ps : list string) : bool :=
  existsb (startswith s) ps.

(** Truth value of a [str]. *)
Definition truthy (s : string) : bool :=
  match s with EmptyString => false | _ => true end.

(** [sep.join(parts)] *)
Fixpoint join (sep : string) (parts : list string) : string :=
  match parts with
  | [] => ""
  | [p] => p
  | p :: ps => p +:+ sep +:+ join sep ps
  end.

Definition nl : string := String (ascii_of_nat 10) "".

End PyStr.

(** ** Python objects carried through the pipeline *)

(** The operations the code applies to the values it does not look into:
    [a == b], the constant [None] and a [str] seen as an object. *)
Class PyObject (Value : Type) := {
  py_eq : Value -> Value -> bool;
  py_None : Value;
  py_str : string -> Value;
}.

(** A langchain [Document]; only [page_content] is read by the core. *)
Record Document (Value : Type) := mkDocument {
  page_content : string;
  metadata : gmap string Value;
}.
Arguments mkDocument {Value} _ _.
Arguments page_content {Value} _.
Arguments metadata {Value} _.

(** A small concrete object type for the examples: JSON scalars. *)
Inductive jv : Type :=
| JNull
| JBool (b : bool)
| JInt (n : Z)
| JStr (s : string).

Definition jv_eq (a b : jv) : bool :=
  match a, b with
  | JNull, JNull => true
  | JBool x, JBool y => Bool.eqb x y
  | JBool x, JInt n | JInt n, JBool x => (n =? (if x then 1 else 0))%Z
  | JInt x, JInt y => (x =? y)%Z
  | JStr x, JStr y => String.eqb x y
  | _, _ => false
  end.

#[export] Instance jv_object : PyObject jv :=
  {| py_eq := jv_eq; py_None := JNull; py_str := JStr |}.

(** ** Memory: sets and single-pass iterators reached by reference *)

Abbreviation loc := positive (only parsing).

Section Pipeline.
Context {Value : Type} `{!PyObject Value} {Score : Type}.

(** One retrieved result: [(Document, score)]. *)
Definition DocTuple : Type := Document Value * Score.

(** [doc_tuple[0].page_content] *)
Definition page_text (doc_tuple : DocTuple) : string :=
  page_content (fst doc_tuple).

Record Mem := mkMem {
  sets : gmap loc (gset string);       (* the [set] objects *)
  iters : gmap loc (list DocTuple);    (* iterators: what is still to come *)
}.

Definition set_at (m : Mem) (s : loc) : gset string :=
  default ∅ (sets m !! s).

(** [s.add(x)] *)
Definition set_add (s : loc) (x : string) (m : Mem) : Mem :=
  {| sets := <[s := {[x]} ∪ set_at m s]> (sets m); iters := iters m |}.

(** [set()] *)
Definition new_set (m : Mem) : loc * Mem :=
  let s := fresh (dom (sets m)) in
  (s, {| sets := <[s := ∅]> (sets m); iters := iters m |}).

(** The [docs] argument: a list, or a single-pass iterator such as a
    generator. *)
Inductive Docs :=
| DocList (l : list DocTuple)
| DocIter (it : loc).

(** Running over [docs] to its end, as [tuple(docs)] and a [for] loop
    both do: a list gives its items and stays as it is, an iterator
    gives what it had left and is then exhausted. *)
Definition drain (docs : Docs) (m : Mem) : list DocTuple * Mem :=
  match docs with
  | DocList l => (l, m)
  | DocIter it =>
      (default [] (iters m !! it),
       {| sets := sets m; iters := alter (λ _, []) it (iters m) |})
  end.

(** ** [chat.py] *)

(** The first [check_duplication] (lines 82-101), which works on the
    module global [contentList].  The name is bound again at line 103,
    so no caller reaches this one. *)
Fixpoint check_duplication_shadowed_loop
    (docs updated_docs : list DocTuple) (contentList : list string)
  : list DocTuple * list string :=
  match docs with
  | [] => (updated_docs, contentList)
  | doc :: rest =>
      if bool_decide (page_text doc ∈ contentList)
      then check_duplication_shadowed_loop rest updated_docs contentList
      else check_duplication_shadowed_loop rest (updated_docs ++ [doc])
             (contentList ++ [page_text doc])
  end.

Definition check_duplication_shadowed
    (docs : list DocTuple) (contentList : list string)
  : list DocTuple * list string :=
  check_duplication_shadowed_loop docs [] contentList.

(** The loop of the typed [check_duplication] (lines 116-123). *)
Fixpoint check_duplication_loop
    (seen_contents : loc) (docs unique_docs : list DocTuple) (m : Mem)
  : list DocTuple * Mem :=
  match docs with
  | [] => (unique_docs, m)
  | doc_tuple :: rest =>
      let page_text := page_text doc_tuple in
      if bool_decide (page_text ∈ set_at m seen_contents)
      then check_duplication_loop seen_contents rest unique_docs m
      else check_duplication_loop seen_contents rest
             (unique_docs ++ [doc_tuple])
             (set_add seen_contents page_text m)
  end.

(** The typed [check_duplication] (lines 103-130), the one in force. *)
Definition check_duplication
    (docs : Docs) (seen_contents : option loc) (m : Mem)
  : list DocTuple * Mem :=
  let '(seen_contents, m) :=
    match seen_contents with
    | None => new_set m
    | Some s => (s, m)
    end in
  let '(materialized, m) := drain docs m in
  let original_len := length materialized in
  let '(items, m) := drain docs m in
  check_duplication_loop seen_contents items [] m.

(** ** The world of [workflow.py] *)

(** An event or a stored record: a [dict] with [str] keys. *)
Abbreviation Event := (gmap string Value) (only parsing).

(** A value bound to a prompt variable. *)
Inductive Arg :=
| ArgStr (s : string)
| ArgObj (o : gmap string Value).

(** [_build_prompt(system, human)] *)
Record Prompt := _build_prompt { system : string; human : string }.

(** The collaborators.  A call either returns or raises; [inl detail]
    stands for an exception (an instance of [Exception]) raised by the
    collaborator. *)
Record Env := mkEnv {
  (* [(prompt | llm).invoke(vars).content] *)
  llm_invoke : Prompt → list (string * Arg) → string + string;
  (* [vectorstore.similarity_search_with_score(q, k=k)] *)
  similarity_search_with_score : string → nat → string + list DocTuple;
}.

Inductive Call :=
| CallLLM (p : Prompt) (vars : list (string * Arg))
| CallSearch (q : string) (k : nat)
| CallLoad
| CallDump (records : list (gmap string Value)).

Record World := mkWorld {
  mem : Mem;
  (* the module global [chat.contentList] *)
  contentList : list string;
  (* the parsed content of the event file, [None] when it is missing *)
  anomaly_file : option (list (gmap string Value));
  (* the calls made to the collaborators and to the file, oldest first *)
  calls : list Call;
}.

Inductive KeyErrorArg :=
| MissingKey (k : string)          (* [d[k]] on a dict without [k] *)
| EventIdNotFound (id : Value).    (* line 144 *)

Inductive exn :=
| KeyError (a : KeyErrorArg)
| FileNotFoundError (path : string)
| GraphRecursionError
| ModelError (detail : string)
| VectorStoreError (detail : string).

Inductive outcome (A : Type) :=
| Ok (a : A)
| Raise (e : exn).
Arguments Ok {A} _.
Arguments Raise {A} _.

(** Computations that read and change the world and may raise. *)
Definition M (A : Type) : Type := World → outcome A * World.

#[export] Instance M_ret : MRet M := λ A a w, (Ok a, w).
#[export] Instance M_bind : MBind M := λ A B f c w,
  match c w with
  | (Ok a, w') => f a w'
  | (Raise e, w') => (Raise e, w')
  end.

Definition raise {A} (e : exn) : M A := λ w, (Raise e, w).

(** [try: c except Exception: h] *)
Definition try_except {A} (c : M A) (h : exn → M A) : M A := λ w,
  match c w with
  | (Ok a, w') => (Ok a, w')
  | (Raise e, w') => h e w'
  end.

Definition log_call (c : Call) : M unit := λ w,
  (Ok (), {| mem := mem w; contentList := contentList w;
             anomaly_file := anomaly_file w; calls := calls w ++ [c] |}).

Definition with_mem {A} (f : Mem → A * Mem) : M A := λ w,
  let '(a, m) := f (mem w) in
  (Ok a, {| mem := m; contentList := contentList w;
            anomaly_file := anomaly_file w; calls := calls w |}).

(** [d[k]] where the key may be missing. *)
Definition get_item {A} (field : option A) (k : string) : M A :=
  match field with
  | Some a => mret a
  | None => raise (KeyError (MissingKey k))
  end.

Definition invoke (env : Env) (p : Prompt) (vars : list (string * Arg))
  : M string :=
  log_call (CallLLM p vars);;
  match llm_invoke env p vars with
  | inr content => mret content
  | inl detail => raise (ModelError detail)
  end.

Definition search (env : Env) (q : string) (k : nat) : M (list DocTuple) :=
  log_call (CallSearch q k);;
  match similarity_search_with_score env q k with
  | inr results => mret results
  | inl detail => raise (VectorStoreError detail)
  end.

Definition MODEL_NAME : string := "claude_3_5_sonnet".
Definition RECURSION_LIMIT : nat := 50.
Definition TOP_K : nat := 4.

(** [State], a [TypedDict] with [total=False]: every key may be
    missing.  [past_steps] is a channel with the reducer [operator.add]
    and starts as the empty list.  ([info] is declared the same way and
    no node ever reads or writes it; it is left out.) *)
Record State := mkState {
  input : option (gmap string Value);
  plan : option (list string);
  past_steps : list (list string);
  reference_docs : option (list DocTuple);
  answer : option string;
}.

(** What a node returns: the keys it sets. *)
Record Update := mkUpdate {
  u_input : option (gmap string Value);
  u_plan : option (list string);
  u_past_steps : option (list (list string));
  u_reference_docs : option (list DocTuple);
  u_answer : option string;
}.

Definition no_update : Update := mkUpdate None None None None None.

Definition or_else {A} (new old : option A) : option A :=
  match new with Some a => Some a | None => old end.

(** The state after a node's return value is applied: a plain key is
    overwritten, [past_steps] is extended. *)
Definition apply_update (st : State) (u : Update) : State :=
  {| input := or_else (u_input u) (input st);
     plan := or_else (u_plan u) (plan st);
     past_steps := past_steps st ++ default [] (u_past_steps u);
     reference_docs := or_else (u_reference_docs u) (reference_docs st);
     answer := or_else (u_answer u) (answer st) |}.

(** *** [query_planner] *)

Definition planner_system_msg : string :=
  "You are a retrieval query planner for an industrial safety RAG system "
  +:+ "backed by a vector store. "
  +:+ "Given an intrusion/safety event JSON, generate *three* high-recall "
  +:+ "natural-language questions that retrieve the most relevant "
  +:+ "work-instruction documents.".

Definition planner_human_msg : string :=
  "Event JSON:" +:+ PyStr.nl +:+ "{event_json}".

(** The condition of the comprehension at lines 52-53. *)
Definition usable_line (line : string) : bool :=
  PyStr.truthy (PyStr.strip line)
  && negb (PyStr.startswith_any (PyStr.lower line)
             ["event json"; "natural-language questions"]).

(** Lines 49-54. *)
Definition parse_queries (raw_text : string) : list string :=
  map PyStr.strip (List.filter usable_line (PyStr.splitlines raw_text)).

Definition query_planner (env : Env) (state : State) : M Update :=
  inp ← get_item (input state) "input";
  let planner_prompt := _build_prompt planner_system_msg planner_human_msg in
  raw_text ← invoke env planner_prompt [("event_json", ArgObj inp)];
  let queries := parse_queries raw_text in
  mret {| u_input := Some inp; u_plan := Some queries;
          u_past_steps := None; u_reference_docs := None;
          u_answer := None |}.

(** *** [retriever] *)

(** [sum((search(q) for q in plan), start=acc)]: the searches run in the
    order of the plan, each result list is added on the right. *)
Fixpoint search_sum (env : Env) (plan : list string) (acc : list DocTuple)
  : M (list DocTuple) :=
  match plan with
  | [] => mret acc
  | q :: rest =>
      results ← search env q TOP_K;
      search_sum env rest (acc ++ results)
  end.

Definition retriever (env : Env) (state : State) : M Update :=
  pl ← get_item (plan state) "plan";
  retrieved ← search_sum env pl [];
  filtered ← with_mem (check_duplication (DocList retrieved) None);
  inp ← get_item (input state) "input";
  mret {| u_input := Some inp; u_plan := Some pl;
          u_past_steps := Some [pl]; u_reference_docs := Some filtered;
          u_answer := None |}.

(** *** [generate_answer] *)

Definition answer_system_msg : string :=
  "Here is pieces of context, contained in <context> tags. "
  +:+ "Provide a concise answer to the question at the end. "
  +:+ "Explain clearly the reasoning. "
  +:+ "If you don't know the answer, just say so.".

Definition answer_human_msg : string :=
  "Reference texts:" +:+ PyStr.nl +:+ "{context}" +:+ PyStr.nl +:+ PyStr.nl
  +:+ "Question: {input}".

Definition fallback_answer : string :=
  "Sorry, an internal error occurred while generating the answer.".

Definition generate_answer (env : Env) (state : State) : M Update :=
  let context :=
    PyStr.join (PyStr.nl +:+ PyStr.nl)
      (map page_text (default [] (reference_docs state))) in
  query ← get_item (input state) "input";
  let prompt := _build_prompt answer_system_msg answer_human_msg in
  answer ← try_except
    (invoke env prompt [("context", ArgStr context); ("input", ArgObj query)])
    (λ _, mret fallback_answer);
  mret {| u_input := None; u_plan := None; u_past_steps := None;
          u_reference_docs := None; u_answer := Some answer |}.

(** *** [run_workflow] *)

Inductive Node := planner | retriever_node | generate | END.

Definition node_name (n : Node) : string :=
  match n with
  | planner => "planner"
  | retriever_node => "retriever"
  | generate => "generate"
  | END => "__end__"
  end.

(** [set_entry_point] and [add_edge], lines 111-114. *)
Definition entry_point : Node := planner.

Definition edge (n : Node) : Node :=
  match n with
  | planner => retriever_node
  | retriever_node => generate
  | generate => END
  | END => END
  end.

Definition run_node (env : Env) (n : Node) (state : State) : M Update :=
  match n with
  | planner => query_planner env state
  | retriever_node => retriever env state
  | generate => generate_answer env state
  | END => mret no_update
  end.

(** [app.stream(inputs, config)]: the nodes run one after the other along
    the edges, each step gives [{node: value}]; a run that has used up
    [recursion_limit] steps without reaching [END] is stopped with an
    error. *)
Fixpoint stream (env : Env) (recursion_limit : nat) (n : Node) (state : State)
  : M (list (string * Update)) :=
  match n with
  | END => mret []
  | _ =>
      match recursion_limit with
      | 0 => raise GraphRecursionError
      | S limit =>
          value ← run_node env n state;
          outputs ← stream env limit (edge n) (apply_update state value);
          mret ((node_name n, value) :: outputs)
      end
  end.

Definition run_workflow (env : Env) (query : gmap string Value) : M string :=
  let inputs := {| input := Some query; plan := None; past_steps := [];
                   reference_docs := None; answer := None |} in
  outputs ← stream env RECURSION_LIMIT entry_point inputs;
  let last_value := foldl (λ _ kv, snd kv) no_update outputs in
  mret (default "No answer produced." (u_answer last_value)).

(** *** [run_rag_pipeline] *)

Definition anomaly_path : string :=
  "data_source/dynamodb_anomaly_data/dummy_safety_events_2025.json".

(** [d.get(k)] *)
Definition dict_get (d : gmap string Value) (k : string) : Value :=
  default py_None (d !! k).

(** [d[k]] *)
Definition subscript (d : gmap string Value) (k : string) : outcome Value :=
  match d !! k with
  | Some v => Ok v
  | None => Raise (KeyError (MissingKey k))
  end.

(** The [for ... else] of lines 139-144 over the loaded records: the
    first record that matches gets the field and the loop stops; when
    the list ends without a match the [else] branch raises. *)
Fixpoint attach_advisor
    (event : gmap string Value) (rag_result : string)
    (records : list (gmap string Value))
  : outcome (list (gmap string Value)) :=
  match records with
  | [] =>
      match subscript event "eventId" with
      | Ok id => Raise (KeyError (EventIdNotFound id))
      | Raise e => Raise e
      end
  | record :: rest =>
      match subscript event "eventId" with
      | Ok id =>
          if py_eq (dict_get record "eventId") id
          then Ok (<["ragAdvisor" := py_str rag_result]> record :: rest)
          else match attach_advisor event rag_result rest with
               | Ok rest' => Ok (record :: rest')
               | Raise e => Raise e
               end
      | Raise e => Raise e
      end
  end.

Definition lift_outcome {A} (o : outcome A) : M A := λ w, (o, w).

Definition file_exists : M bool := λ w,
  (Ok (bool_decide (is_Some (anomaly_file w))), w).

(** [json.load] on the event file. *)
Definition json_load : M (list (gmap string Value)) := λ w,
  match anomaly_file w with
  | Some records =>
      (Ok records, {| mem := mem w; contentList := contentList w;
                      anomaly_file := anomaly_file w;
                      calls := calls w ++ [CallLoad] |})
  | None => (Raise (FileNotFoundError anomaly_path), w)
  end.

(** [json.dump] onto the event file. *)
Definition json_dump (records : list (gmap string Value)) : M unit := λ w,
  (Ok (), {| mem := mem w; contentList := contentList w;
             anomaly_file := Some records;
             calls := calls w ++ [CallDump records] |}).

Definition run_rag_pipeline (env : Env) (event : gmap string Value) : M unit :=
  rag_result ← run_workflow env event;
  present ← file_exists;
  if negb present then raise (FileNotFoundError anomaly_path)
  else
    records ← json_load;
    records ← lift_outcome (attach_advisor event rag_result records);
    json_dump records.

(** ** Reference definitions, written after the specification *)

(** The docs that are kept when deduplicating by text against a set [S]:
    those whose text is neither in [S] nor the text of an earlier doc of
    the list.  [earlier] holds the docs already passed, kept or not. *)
Fixpoint first_unseen (S : gset string) (earlier docs : list DocTuple)
  : list DocTuple :=
  match docs with
  | [] => []
  | d :: rest =>
      if bool_decide ((page_text d ∉ S) ∧ (page_text d ∉ map page_text earlier))
      then d :: first_unseen S (earlier ++ [d]) rest
      else first_unseen S (earlier ++ [d]) rest
  end.

(** The subsequence of first occurrences, by text, of a result list. *)
Definition first_occurrences (docs : list DocTuple) : list DocTuple :=
  first_unseen ∅ [] docs.

(** What the Chunk Store gives for one query, and for a plan: the
    per-query lists one after the other, in the order of the queries. *)
Definition raw_results_of (env : Env) (q : string) : list DocTuple :=
  match similarity_search_with_score env q TOP_K with
  | inr results => results
  | inl _ => []
  end.

Definition raw_results (env : Env) (plan : list string) : list DocTuple :=
  concat (map (raw_results_of env) plan).

(** Every search of the plan returns (none raises). *)
Definition searches_return (env : Env) (plan : list string) : Prop :=
  ∀ q, q ∈ plan → ∃ r, similarity_search_with_score env q TOP_K = inr r.

Definition planner_prompt : Prompt :=
  _build_prompt planner_system_msg planner_human_msg.

Definition planner_vars (event : gmap string Value) : list (string * Arg) :=
  [("event_json", ArgObj event)].

Definition answer_prompt : Prompt :=
  _build_prompt answer_system_msg answer_human_msg.

Definition answer_vars (docs : list DocTuple) (event : gmap string Value)
  : list (string * Arg) :=
  [("context",
    ArgStr (PyStr.join (PyStr.nl +:+ PyStr.nl) (map page_text docs)));
   ("input", ArgObj event)].

(** A record matches the event identifier [id] (line 140). *)
Definition matches (id : Value) (record : gmap string Value) : bool :=
  py_eq (dict_get record "eventId") id.

(** The world after the calls [cs] have been logged. *)
Definition add_calls (cs : list Call) (w : World) : World :=
  {| mem := mem w; contentList := contentList w;
     anomaly_file := anomaly_file w; calls := calls w ++ cs |}.

(** The answer of a run over the reference docs [docs]: the model's reply,
    or the fallback string when the model call raises. *)
Definition synthesized
    (env : Env) (docs : list DocTuple) (event : gmap string Value) : string :=
  match llm_invoke env answer_prompt (answer_vars docs event) with
  | inr content => content
  | inl _ => fallback_answer
  end.

Definition answer_only (a : string) : Update :=
  {| u_input := None; u_plan := None; u_past_steps := None;
     u_reference_docs := None; u_answer := Some a |}.

(** A computation that leaves the event file and [chat.contentList] as
    they are and logs no write of the file. *)
Definition quiet {A} (c : M A) : Prop :=
  ∀ w, anomaly_file (c w).2 = anomaly_file w
       ∧ contentList (c w).2 = contentList w
       ∧ ∃ cs, calls (c w).2 = calls w ++ cs
               ∧ Forall (λ c, ∀ records, c ≠ CallDump records) cs.

Definition is_dump (c : Call) : bool :=
  match c with CallDump _ => true | _ => false end.


End Pipeline.

Arguments Ok {Value A} _.
Arguments Raise {Value A} _.

(** ** Concrete data for the examples *)

Module Ex.

(** Scores are stood for by integers here. *)
Definition doc (text : string) (score : Z) : Document jv * Z :=
  (mkDocument text ∅, score).

Definition A := doc "Wear PPE in Tank Area A" 1.
Definition B := doc "Keep clear of the loading bay" 2.
Definition A' := doc "Wear PPE in Tank Area A" 3.
Definition C := doc "Report to the shift supervisor" 4.

(** A store that answers one query with [A; B] and every other query
    with [A'; C]: the raw results of two queries are, by text,
    [A; B; A; C]. *)
Definition store (q : string) (k : nat) : string + list (Document jv * Z) :=
  if String.eqb q "danger zone entry procedure" then inr [A; B]
  else inr [A'; C].

Definition is_planner_prompt (p : Prompt) : bool :=
  String.eqb (system p) planner_system_msg.

(** A chat model with a fixed reply to the planner and a fixed reply to
    the answer prompt. *)
Definition env (planner_reply answer_reply : string + string)
  : @Env jv Z :=
  mkEnv (λ p _, if is_planner_prompt p then planner_reply else answer_reply)
        store.

Definition three_lines : string :=
  "Event JSON: restated" +:+ PyStr.nl
  +:+ "danger zone entry procedure" +:+ PyStr.nl
  +:+ PyStr.nl
  +:+ "  PPE rules for tank areas  " +:+ PyStr.nl
  +:+ "who to notify after an intrusion".

Definition two_equal_lines : string :=
  "danger zone entry procedure" +:+ PyStr.nl
  +:+ "danger zone entry procedure".

Definition event : gmap string jv :=
  {[ "eventId" := JStr "542991";
     "message" := JStr "worker entered danger zone" ]}.

Definition unknown_event : gmap string jv :=
  {[ "eventId" := JStr "999999";
     "message" := JStr "worker entered danger zone" ]}.

Definition records : list (gmap string jv) :=
  [ {[ "eventId" := JStr "500001"; "status" := JStr "ACTIVATE" ]};
    {[ "eventId" := JStr "542991"; "status" := JStr "ACTIVATE" ]};
    {[ "eventId" := JStr "542991"; "status" := JStr "CLOSED" ]} ].

Definition empty_mem : @Mem jv Z := mkMem ∅ ∅.

Definition world : @World jv Z :=
  mkWorld empty_mem [] (Some records) [].

Definition env_ok : @Env jv Z :=
  env (inr three_lines) (inr "Wear PPE in Tank Area A").

(** The state the retriever sees after a plan of two queries. *)
Definition two_queries : list string :=
  ["danger zone entry procedure"; "PPE rules for tank areas"].

Definition planned : @State jv Z :=
  {| input := Some event; plan := Some two_queries; past_steps := [];
     reference_docs := None; answer := None |}.

(** The state the planner sees. *)
Definition initial : @State jv Z :=
  {| input := Some event; plan := None; past_steps := [];
     reference_docs := None; answer := None |}.

(** A memory with the set [{B's text}] at location 1 and an iterator
    over [A; B; A'; C] at location 1. *)
Definition mem1 : @Mem jv Z :=
  mkMem {[ 1%positive := {[ "Keep clear of the loading bay" ]} ]}
        {[ 1%positive := [A; B; A'; C] ]}.

End Ex.

(** ** The event file as [lambda_function_event.py] and [app.py] use it *)

Section EventStore.
Context {Value : Type} `{!PyObject Value}.

(** What is on disk at the path of the event file: nothing, text that is
    not JSON, a JSON value that is not a list, or a JSON list of objects
    (the records).  Two further states are not described and no
    statement below speaks of them: bytes that are not UTF-8 text, and a
    list holding a value that is not an object. *)
Inductive DbFile :=
| NoFile
| NotJson
| NotAList
| Items (items : list (gmap string Value)).

(** [load_db] (lines 140-148): a missing file, a [JSONDecodeError] and a
    value that is not a list all give the empty list. *)
Definition load_db (f : DbFile) : list (gmap string Value) :=
  match f with
  | Items data => data
  | NoFile | NotJson | NotAList => []
  end.

(** [save_db] (lines 150-152) *)
Definition save_db (items : list (gmap string Value)) : DbFile := Items items.

(** [any(d.get("eventId") == item["eventId"] for d in items)]: the
    subscript on [item] is evaluated once per record that is looked at,
    so it cannot fail on an empty list. *)
Fixpoint any_same_id
    (item : gmap string Value) (items : list (gmap string Value))
  : @outcome Value bool :=
  match items with
  | [] => Ok false
  | d :: rest =>
      match subscript item "eventId" with
      | Ok id =>
          if py_eq (dict_get d "eventId") id then Ok true
          else any_same_id item rest
      | Raise e => Raise e
      end
  end.

(** [append_to_dummy_db] (lines 168-176), on the content of
    [DUMMY_DB_PATH]. *)
Definition append_to_dummy_db (item : gmap string Value) (f : DbFile)
  : @outcome Value () * DbFile :=
  let items := load_db f in
  match any_same_id item items with
  | Ok true => (Ok (), f)
  | Ok false => (Ok (), save_db (items ++ [item]))
  | Raise e => (Raise e, f)
  end.


(** Event identifiers pairwise different, an earlier record compared with
    a later one as line 172 does. *)
Definition distinct_ids (items : list (gmap string Value)) : Prop :=
  ∀ i j ri rj, i < j → items !! i = Some ri → items !! j = Some rj →
    py_eq (dict_get ri "eventId") (dict_get rj "eventId") = false.

(** *** [app.save_json_event] *)




(** *** [generate_message] *)

Definition EVENT_TYPES : list string :=
  ["DANGER_ZONE_INTRUSION"; "VEHICLE_ENTERED";
   "UNAUTHORIZED_ACCESS"; "FIRE_ALERT"; "NO_ENTRY_VIOLATION"].

(** The [templates] dict of lines 159-165.  The hyphen of two of the
    messages is U+2011, held here as its UTF-8 bytes. *)
Definition templates (roi_id worker vehicle location : string)
  : gmap string string :=
  <["DANGER_ZONE_INTRUSION" :=
      worker +:+ " entered the " +:+ roi_id +:+ " danger‑zone polygon."]>
  (<["VEHICLE_ENTERED" :=
      "Vehicle " +:+ vehicle +:+ " entered the " +:+ roi_id +:+ " area."]>
  (<["UNAUTHORIZED_ACCESS" :=
      "Unauthorized access detected by " +:+ worker +:+ "."]>
  (<["FIRE_ALERT" := "Fire alert triggered at " +:+ location +:+ "."]>
  (<["NO_ENTRY_VIOLATION" := "No‑entry violation by " +:+ worker +:+ "."]>
   ∅)))).

(** [generate_message] (lines 157-166) *)
Definition generate_message
    (event_type roi_id worker vehicle location : string)
  : @outcome Value string :=
  match templates roi_id worker vehicle location !! event_type with
  | Some message => Ok message
  | None => Raise (KeyError (MissingKey event_type))
  end.

End EventStore.

Module ExStore.

(** A store whose search of the second query raises. *)
Definition failing_store (q : string) (k : nat)
  : string + list (Document jv * Z) :=
  if String.eqb q "PPE rules for tank areas" then inl "store unreachable"
  else Ex.store q k.

Definition env_search_fails : @Env jv Z :=
  mkEnv (λ p _, if Ex.is_planner_prompt p then inr Ex.three_lines
                else inr "unused")
        failing_store.

Definition env_planner_fails : @Env jv Z :=
  Ex.env (inl "model unreachable") (inr "unused").

Definition no_file_world : @World jv Z :=
  mkWorld Ex.empty_mem [] None [].

(** An event without the key [eventId]. *)
Definition anonymous_event : gmap string jv :=
  {[ "message" := JStr "worker entered danger zone" ]}.

Definition new_item : gmap string jv :=
  {[ "eventId" := JStr "555555"; "status" := JStr "ACTIVATE" ]}.

End ExStore.

(** ** Shapes of strings, for the statements about the planner *)

Fixpoint all_chars (p : ascii → bool) (s : string) : bool :=
  match s with
  | EmptyString => true
  | String c r => p c && all_chars p r
  end.

(** No line boundary of [str.splitlines] occurs in [s]. *)
Definition single_line (s : string) : Prop :=
  all_chars (λ c, negb (PyStr.is_linebreak c)) s = true.

(** [s] is empty or starts with a character that is not whitespace. *)
Definition head_not_space (s : string) : Prop :=
  match s with
  | EmptyString => True
  | String c _ => PyStr.is_space c = false
  end.

(** [s] is empty or ends with a character that is not whitespace. *)
Fixpoint last_not_space (s : string) : Prop :=
  match s with
  | EmptyString => True
  | String c EmptyString => PyStr.is_space c = false
  | String _ r => last_not_space r
  end.

(** ** The plan, as the contract of the planner words it *)

(** A blank line: nothing but whitespace. *)
Definition blank_line (line : string) : bool :=
  all_chars PyStr.is_space line.

(** [line] starts with [marker] when the case of its letters is
    ignored ([marker] is written in lower case). *)
Fixpoint starts_with_ignoring_case (marker line : string) : bool :=
  match marker, line with
  | EmptyString, _ => true
  | String _ _, EmptyString => false
  | String m ms, String c cs =>
      Ascii.eqb (PyStr.lower_char c) m && starts_with_ignoring_case ms cs
  end.

(** A preamble line: one that starts, whatever the case, with one of the
    two markers. *)
Definition preamble_line (line : string) : bool :=
  starts_with_ignoring_case "event json" line
  || starts_with_ignoring_case "natural-language questions" line.

(** The lines that are neither blank nor a preamble line, in order. *)
Definition kept_lines (lines : list string) : list string :=
  List.filter (λ line, negb (blank_line line) && negb (preamble_line line))
    lines.

(** [q] is [line] without the whitespace at its two ends. *)
Definition trimmed_of (line q : string) : Prop :=
  ∃ l r, line = l +:+ q +:+ r
         ∧ all_chars PyStr.is_space l = true
         ∧ all_chars PyStr.is_space r = true
         ∧ head_not_space q ∧ last_not_space q.

(** * Properties *)

(** ** Facts about the string operations *)

Lemma lstrip_head s : head_not_space (PyStr.lstrip s).
Proof.
  induction s as [|c r IH]; simpl; [done|].
  destruct (PyStr.is_space c) eqn:Hc; [done|]. simpl. exact Hc.
Qed.

Lemma lstrip_fixed s : head_not_space s → PyStr.lstrip s = s.
Proof. destruct s as [|c r]; simpl; [done|]. by intros ->. Qed.

Lemma rstrip_head s : head_not_space s → head_not_space (PyStr.rstrip s).
Proof.
  destruct s as [|c r]; simpl; [done|]. intros Hc.
  destruct (PyStr.rstrip r); rewrite ?Hc; simpl; exact Hc.
Qed.

Lemma rstrip_cons c r :
  PyStr.rstrip (String c r)
  = match PyStr.rstrip r with
    | EmptyString => if PyStr.is_space c then EmptyString else String c ""
    | r' => String c r'
    end.
Proof. reflexivity. Qed.

Lemma rstrip_idem s : PyStr.rstrip (PyStr.rstrip s) = PyStr.rstrip s.
Proof.
  induction s as [|c r IH]; [done|]. rewrite rstrip_cons.
  destruct (PyStr.rstrip r) as [|c' r'] eqn:Hr.
  - destruct (PyStr.is_space c) eqn:Hc; [done|].
    rewrite rstrip_cons. simpl. by rewrite Hc.
  - rewrite rstrip_cons, IH. done.
Qed.

Lemma strip_idem s : PyStr.strip (PyStr.strip s) = PyStr.strip s.
Proof.
  unfold PyStr.strip.
  rewrite (lstrip_fixed (PyStr.rstrip (PyStr.lstrip s)))
    by apply rstrip_head, lstrip_head.
  apply rstrip_idem.
Qed.

Lemma all_chars_app p s1 s2 :
  all_chars p (s1 +:+ s2) = all_chars p s1 && all_chars p s2.
Proof.
  induction s1 as [|c r IH]; simpl; [done|]. by rewrite IH, andb_assoc.
Qed.

Lemma all_chars_lstrip p s :
  all_chars p s = true → all_chars p (PyStr.lstrip s) = true.
Proof.
  induction s as [|c r IH]; simpl; [done|]. intros [Hc Hr]%andb_prop.
  destruct (PyStr.is_space c); [by apply IH|]. simpl. by rewrite Hc, Hr.
Qed.

Lemma all_chars_rstrip p s :
  all_chars p s = true → all_chars p (PyStr.rstrip s) = true.
Proof.
  induction s as [|c r IH]; simpl; [done|]. intros [Hc Hr]%andb_prop.
  specialize (IH Hr). destruct (PyStr.rstrip r) as [|c' r'].
  - destruct (PyStr.is_space c); simpl; [done|]. by rewrite Hc.
  - simpl in *. by rewrite Hc, IH.
Qed.

Lemma splitlines_from_single_line s : ∀ after_cr cur,
  single_line cur → Forall single_line (PyStr.splitlines_from after_cr cur s).
Proof.
  induction s as [|c r IH]; intros after_cr cur Hcur; simpl.
  - case_decide; by repeat constructor.
  - destruct (after_cr && _); [by apply IH|].
    destruct (PyStr.is_linebreak c) eqn:Hc.
    + constructor; [done|]. by apply IH.
    + apply IH. unfold single_line in *.
      rewrite all_chars_app, Hcur. simpl. by rewrite Hc.
Qed.

Lemma lstrip_decompose s :
  ∃ l, s = l +:+ PyStr.lstrip s ∧ all_chars PyStr.is_space l = true.
Proof.
  induction s as [|c r (l & Hl & Hsp)]; simpl; [by exists ""|].
  destruct (PyStr.is_space c) eqn:Hc; [|by exists ""].
  exists (String c l). split.
  - change (String c r = String c (l +:+ PyStr.lstrip r)). by f_equal.
  - simpl. by rewrite Hc, Hsp.
Qed.

Lemma rstrip_decompose s :
  ∃ r, s = PyStr.rstrip s +:+ r ∧ all_chars PyStr.is_space r = true.
Proof.
  induction s as [|c r0 (r & Hr & Hsp)]; [by exists ""|].
  rewrite rstrip_cons. destruct (PyStr.rstrip r0) as [|c' r''].
  - change (r0 = r) in Hr. subst r0. destruct (PyStr.is_space c) eqn:Hc.
    + exists (String c r). split; [done|]. simpl. by rewrite Hc, Hsp.
    + by exists r.
  - exists r. split; [|done].
    change (String c r0 = String c (String c' r'' +:+ r)). by f_equal.
Qed.

Lemma rstrip_last s : last_not_space (PyStr.rstrip s).
Proof.
  induction s as [|c r IH]; [done|]. rewrite rstrip_cons.
  destruct (PyStr.rstrip r) as [|c' r'].
  - by destruct (PyStr.is_space c) eqn:Hc.
  - exact IH.
Qed.

(** [strip] gives the line without the whitespace at its two ends. *)
Lemma strip_trimmed line : trimmed_of line (PyStr.strip line).
Proof.
  destruct (lstrip_decompose line) as (l & Hl & Hlsp).
  destruct (rstrip_decompose (PyStr.lstrip line)) as (r & Hr & Hrsp).
  exists l, r. unfold PyStr.strip. rewrite <- Hr, <- Hl.
  repeat split; auto.
  - apply rstrip_head, lstrip_head.
  - apply rstrip_last.
Qed.

Lemma lstrip_blank s :
  all_chars PyStr.is_space (PyStr.lstrip s) = all_chars PyStr.is_space s.
Proof.
  induction s as [|c r IH]; simpl; [done|].
  destruct (PyStr.is_space c) eqn:Hc; simpl; [done|]. by rewrite Hc.
Qed.

Lemma rstrip_truthy s :
  PyStr.truthy (PyStr.rstrip s) = negb (all_chars PyStr.is_space s).
Proof.
  induction s as [|c r IH]; [done|]. rewrite rstrip_cons. simpl.
  destruct (PyStr.rstrip r) as [|c' r']; simpl in *.
  - apply (f_equal negb) in IH. rewrite negb_involutive in IH. simpl in IH.
    rewrite <- IH, andb_true_r. by destruct (PyStr.is_space c).
  - apply (f_equal negb) in IH. rewrite negb_involutive in IH. simpl in IH.
    by rewrite <- IH, andb_false_r.
Qed.

(** The test [if line.strip()] holds for the lines that are not blank. *)
Lemma strip_truthy line :
  PyStr.truthy (PyStr.strip line) = negb (blank_line line).
Proof.
  unfold PyStr.strip, blank_line. by rewrite rstrip_truthy, lstrip_blank.
Qed.

(** [line.lower().startswith(marker)] is the test that ignores case. *)
Lemma startswith_lower marker : ∀ line,
  PyStr.startswith (PyStr.lower line) marker
  = starts_with_ignoring_case marker line.
Proof.
  unfold PyStr.startswith.
  induction marker as [|m ms IH]; intros line; [by destruct line|].
  destruct line as [|c cs]; [done|]. simpl. rewrite <- IH.
  destruct (ascii_dec m (PyStr.lower_char c)) as [->|Hne].
  - by rewrite Ascii.eqb_refl.
  - destruct (Ascii.eqb_spec (PyStr.lower_char c) m); [congruence|done].
Qed.

(** The condition of the comprehension is "not blank and not a preamble
    line". *)
Lemma usable_line_kept line :
  usable_line line = negb (blank_line line) && negb (preamble_line line).
Proof.
  unfold usable_line, preamble_line, PyStr.startswith_any.
  cbn [existsb]. by rewrite strip_truthy, !startswith_lower, orb_false_r.
Qed.

Lemma parse_queries_kept raw :
  parse_queries raw = map PyStr.strip (kept_lines (PyStr.splitlines raw)).
Proof.
  unfold parse_queries, kept_lines. f_equal.
  apply List.filter_ext. intros line. apply usable_line_kept.
Qed.

Lemma Forall2_trimmed lines :
  Forall2 trimmed_of lines (map PyStr.strip lines).
Proof.
  induction lines; simpl; constructor; [apply strip_trimmed|done].
Qed.


(** ** Deduplication *)

Section Dedup.
Context {Value Score : Type}.
Implicit Types (docs earlier acc : list (@DocTuple Value Score)).
Implicit Types (m : @Mem Value Score) (S : gset string) (s l : loc).

Lemma set_at_set_add s x m : set_at (set_add s x m) s = {[x]} ∪ set_at m s.
Proof. unfold set_at at 1. simpl. by rewrite lookup_insert_eq. Qed.

Lemma sets_set_add_ne s l x m :
  l ≠ s → sets (set_add s x m) !! l = sets m !! l.
Proof. intros Hne. simpl. by rewrite lookup_insert_ne. Qed.

Lemma set_at_lookup s S m : sets m !! s = Some S → set_at m s = S.
Proof. unfold set_at. by intros ->. Qed.

(** The loop keeps exactly the docs of [first_unseen]; the set it works
    on grows by their texts and nothing else in memory moves. *)
Lemma check_duplication_loop_spec s S docs : ∀ earlier acc m,
  set_at m s = S ∪ list_to_set (map page_text earlier) →
  ∃ m', check_duplication_loop s docs acc m
          = (acc ++ first_unseen S earlier docs, m')
    ∧ set_at m' s
        = set_at m s ∪ list_to_set (map page_text (first_unseen S earlier docs))
    ∧ (∀ l, l ≠ s → sets m' !! l = sets m !! l)
    ∧ (is_Some (sets m !! s) → is_Some (sets m' !! s))
    ∧ iters m' = iters m.
Proof.
  induction docs as [|d rest IH]; intros earlier acc m Hinv; simpl.
  - exists m. rewrite app_nil_r. repeat split; auto. set_solver.
  - assert (Hnext : ∀ X : gset string,
               X = S ∪ list_to_set (map page_text earlier) →
               {[page_text d]} ∪ X
               = S ∪ list_to_set (map page_text (earlier ++ [d]))).
    { intros X ->. rewrite map_app, list_to_set_app_L. simpl. set_solver. }
    case_bool_decide as Hin.
    + rewrite bool_decide_false.
      2:{ rewrite Hinv in Hin. intros [H1 H2].
          apply elem_of_union in Hin as [Hin|Hin]; [done|].
          by apply elem_of_list_to_set in Hin. }
      destruct (IH (earlier ++ [d]) acc m) as (m' & Hrun & Hset & Hfr & Hsome & Hit).
      { rewrite <- (Hnext _ Hinv). set_solver. }
      exists m'. repeat split; auto.
    + rewrite bool_decide_true.
      2:{ rewrite Hinv in Hin. split.
          - set_solver.
          - intros Hd. apply Hin. apply elem_of_union_r.
            by apply elem_of_list_to_set. }
      destruct (IH (earlier ++ [d]) (acc ++ [d]) (set_add s (page_text d) m))
        as (m' & Hrun & Hset & Hfr & Hsome & Hit).
      { rewrite set_at_set_add. by apply Hnext. }
      exists m'. rewrite Hrun, <- app_assoc. simpl. repeat split.
      * rewrite Hset, set_at_set_add. set_solver.
      * intros l Hl. rewrite Hfr by done. by apply sets_set_add_ne.
      * intros _. apply Hsome. simpl. rewrite lookup_insert_eq. eauto.
      * by rewrite Hit.
Qed.

(** What [first_unseen] keeps: docs of the list, each with a text that is
    new with respect to [S] and to the docs before it, and no text
    twice. *)
Lemma first_unseen_elem S docs : ∀ earlier d,
  d ∈ first_unseen S earlier docs →
  d ∈ docs ∧ (page_text d ∉ S) ∧ (page_text d ∉ map page_text earlier).
Proof.
  induction docs as [|x rest IH]; intros earlier d; simpl.
  - by intros ?%elem_of_nil.
  - assert (Hrec : d ∈ first_unseen S (earlier ++ [x]) rest →
                   d ∈ x :: rest ∧ (page_text d ∉ S)
                   ∧ (page_text d ∉ map page_text earlier)).
    { intros (H1 & H2 & H3)%IH. repeat split; [set_solver|done|].
      rewrite map_app in H3. set_solver. }
    case_bool_decide as Hk; [|done].
    intros [->|Hd]%elem_of_cons; [|by apply Hrec].
    destruct Hk. repeat split; [set_solver|done|done].
Qed.

Lemma first_unseen_NoDup S docs : ∀ earlier,
  NoDup (map page_text (first_unseen S earlier docs)).
Proof.
  induction docs as [|x rest IH]; intros earlier; simpl.
  - constructor.
  - case_bool_decide; [|apply IH].
    simpl. constructor; [|apply IH].
    intros (d & Heq & Hd)%list_elem_of_In%in_map_iff.
    apply list_elem_of_In, first_unseen_elem in Hd as (_ & _ & Hd).
    apply Hd. rewrite map_app, Heq. set_solver.
Qed.

Lemma first_unseen_sublist S docs : ∀ earlier,
  first_unseen S earlier docs `sublist_of` docs.
Proof.
  induction docs as [|x rest IH]; intros earlier; simpl; [done|].
  case_bool_decide.
  - by apply sublist_skip.
  - by apply sublist_cons.
Qed.

(** A call without a set works on a new empty set: the result is the list
    of first occurrences and every object already in memory is as it
    was. *)
Lemma check_duplication_default docs m :
  ∃ m', check_duplication (DocList docs) None m = (first_occurrences docs, m')
    ∧ (∀ l S, sets m !! l = Some S → sets m' !! l = Some S)
    ∧ iters m' = iters m.
Proof.
  unfold check_duplication, first_occurrences. simpl.
  set (s := fresh (dom (sets m))).
  assert (Hs : sets m !! s = None).
  { apply not_elem_of_dom. apply is_fresh. }
  destruct (check_duplication_loop_spec s ∅ docs [] []
              {| sets := <[s:=∅]> (sets m); iters := iters m |})
    as (m' & Hrun & _ & Hfr & _ & Hit).
  { unfold set_at. simpl. rewrite lookup_insert_eq. set_solver. }
  exists m'. rewrite Hrun. split; [done|]. split; [|done].
  intros l S Hl. rewrite Hfr.
  - simpl. rewrite lookup_insert_ne; [done|]. intros ->. congruence.
  - intros ->. congruence.
Qed.

(** C8. With a list [docs] and a set [S] supplied by the caller (at
    location [s]), [check_duplication] returns exactly the docs whose
    text is neither in the initial [S] nor the text of an earlier doc of
    the list, in the order of the list; the caller's set is changed in
    place and holds on return the initial [S] together with the text of
    every returned doc.  Nothing else in memory changes. *)
Theorem check_duplication_supplied_set docs s S m :
  sets m !! s = Some S →
  ∃ m', check_duplication (DocList docs) (Some s) m
          = (first_unseen S [] docs, m')
    ∧ sets m' !! s
        = Some (S ∪ list_to_set (map page_text (first_unseen S [] docs)))
    ∧ (∀ l, l ≠ s → sets m' !! l = sets m !! l)
    ∧ iters m' = iters m.
Proof.
  intros HS. unfold check_duplication. simpl.
  destruct (check_duplication_loop_spec s S docs [] [] m)
    as (m' & Hrun & Hset & Hfr & Hsome & Hit).
  { rewrite (set_at_lookup _ _ _ HS). simpl. set_solver. }
  exists m'. rewrite Hrun. repeat split; auto.
  destruct Hsome as [S' HS']; [by eauto|].
  rewrite (set_at_lookup _ _ _ HS), (set_at_lookup _ _ _ HS') in Hset.
  by rewrite HS', Hset.
Qed.

(** C9. When [docs] is a single-pass iterator, [tuple(docs)] uses it up,
    the loop then sees no element: the function returns the empty list
    whatever the iterator still held, the iterator is left exhausted and
    no set that was in memory is changed (in particular the set the
    caller supplied, when there is one). *)
Theorem check_duplication_single_pass it seen m :
  ∃ m', check_duplication (DocIter it) seen m = ([], m')
    ∧ iters m' !! it = (λ _, []) <$> iters m !! it
    ∧ (∀ s S, sets m !! s = Some S → sets m' !! s = Some S)
    ∧ (∀ s, seen = Some s → sets m' = sets m).
Proof.
  unfold check_duplication.
  assert (Hd : ∀ m0 : @Mem Value Score,
             default [] (alter (λ _, []) it (iters m0) !! it) = []).
  { intros m0. rewrite lookup_alter_eq. by destruct (iters m0 !! it). }
  destruct seen as [s|]; simpl; rewrite Hd; simpl;
    eexists; (split; [reflexivity|]); simpl.
  - repeat split; auto.
    rewrite !lookup_alter_eq. by destruct (iters m !! it).
  - repeat split; [|  |done].
    + rewrite !lookup_alter_eq. by destruct (iters m !! it).
    + intros s S HS. rewrite lookup_insert_ne; [done|].
      intros <-. pose proof (is_fresh (dom (sets m))) as Hf.
      apply Hf, elem_of_dom. eauto.
Qed.

End Dedup.

(** ** The workflow *)

Section Workflow.
Context {Value : Type} `{!PyObject Value} {Score : Type}.
Implicit Types (env : @Env Value Score) (w : @World Value Score).
Implicit Types (st : @State Value Score) (ev : gmap string Value).
Implicit Types (pl : list string).

Lemma add_calls_nil w : add_calls [] w = w.
Proof. destruct w. unfold add_calls. simpl. by rewrite app_nil_r. Qed.

Lemma add_calls_app cs1 cs2 w :
  add_calls cs2 (add_calls cs1 w) = add_calls (cs1 ++ cs2) w.
Proof. unfold add_calls. simpl. by rewrite app_assoc. Qed.

Lemma bind_ok {A B} (c : M A) (f : A → M B) w a w' :
  c w = (Ok a, w') → (c ≫= f) w = f a w'.
Proof. unfold mbind, M_bind. by intros ->. Qed.

Lemma bind_raise {A B} (c : M A) (f : A → M B) w e w' :
  c w = (Raise e, w') → (c ≫= f) w = (Raise e, w').
Proof. unfold mbind, M_bind. by intros ->. Qed.

Lemma search_returns env q r w :
  similarity_search_with_score env q TOP_K = inr r →
  search env q TOP_K w = (Ok r, add_calls [CallSearch q TOP_K] w).
Proof. intros Hr. unfold search, mbind, M_bind. simpl. by rewrite Hr. Qed.

Lemma raw_results_cons env q r pl :
  similarity_search_with_score env q TOP_K = inr r →
  raw_results env (q :: pl) = r ++ raw_results env pl.
Proof. intros Hr. unfold raw_results, raw_results_of. simpl. by rewrite Hr. Qed.

(** The searches of a plan, when they all return: the per-query lists in
    the order of the queries, one logged call per query. *)
Lemma search_sum_ok env pl : searches_return env pl → ∀ acc w,
  search_sum env pl acc w
  = (Ok (acc ++ raw_results env pl),
     add_calls (map (λ q, CallSearch q TOP_K) pl) w).
Proof.
  induction pl as [|q pl IH]; intros Hs acc w; simpl.
  - by rewrite app_nil_r, add_calls_nil.
  - destruct (Hs q) as [r Hr]; [set_solver|].
    rewrite (bind_ok _ _ _ _ _ (search_returns _ _ _ w Hr)).
    rewrite IH by (intros q' Hq'; apply Hs; set_solver).
    by rewrite add_calls_app, (raw_results_cons _ _ _ _ Hr), app_assoc.
Qed.

(** One run of the retriever node. *)
Lemma retriever_ok env st w pl ev :
  plan st = Some pl → input st = Some ev → searches_return env pl →
  ∃ w', retriever env st w
        = (Ok {| u_input := Some ev; u_plan := Some pl;
                 u_past_steps := Some [pl];
                 u_reference_docs :=
                   Some (first_occurrences (raw_results env pl));
                 u_answer := None |}, w')
    ∧ calls w' = calls w ++ map (λ q, CallSearch q TOP_K) pl
    ∧ contentList w' = contentList w
    ∧ anomaly_file w' = anomaly_file w
    ∧ (∀ l S, sets (mem w) !! l = Some S → sets (mem w') !! l = Some S)
    ∧ iters (mem w') = iters (mem w).
Proof.
  intros Hpl Hin Hs. unfold retriever. rewrite Hpl, Hin. simpl.
  unfold mbind at 1, M_bind at 1. simpl.
  rewrite (bind_ok _ _ _ _ _ (search_sum_ok env pl Hs [] _)). simpl.
  destruct (check_duplication_default (raw_results env pl) (mem w))
    as (m' & Hrun & Hsets & Hit).
  unfold mbind, M_bind, with_mem. simpl. rewrite Hrun. simpl.
  eexists. split; [reflexivity|]. simpl. auto.
Qed.

(** *** The nodes, one by one *)

Lemma query_planner_returns env st w ev raw :
  input st = Some ev →
  llm_invoke env planner_prompt (planner_vars ev) = inr raw →
  query_planner env st w
  = (Ok {| u_input := Some ev; u_plan := Some (parse_queries raw);
           u_past_steps := None; u_reference_docs := None;
           u_answer := None |},
     add_calls [CallLLM planner_prompt (planner_vars ev)] w).
Proof.
  intros Hin Hraw. unfold query_planner. rewrite Hin. simpl.
  unfold invoke, mbind, M_bind. simpl.
  fold planner_prompt. fold (planner_vars ev). by rewrite Hraw.
Qed.

Lemma query_planner_raises env st w ev detail :
  input st = Some ev →
  llm_invoke env planner_prompt (planner_vars ev) = inl detail →
  query_planner env st w
  = (Raise (ModelError detail),
     add_calls [CallLLM planner_prompt (planner_vars ev)] w).
Proof.
  intros Hin Hraw. unfold query_planner. rewrite Hin. simpl.
  unfold invoke, mbind, M_bind. simpl.
  fold planner_prompt. fold (planner_vars ev). by rewrite Hraw.
Qed.

Lemma generate_answer_run env st w ev :
  input st = Some ev →
  generate_answer env st w
  = (Ok (answer_only (synthesized env (default [] (reference_docs st)) ev)),
     add_calls
       [CallLLM answer_prompt (answer_vars (default [] (reference_docs st)) ev)]
       w).
Proof.
  intros Hin. unfold generate_answer. rewrite Hin. simpl.
  unfold try_except, invoke, mbind, M_bind, synthesized. simpl.
  fold answer_prompt. fold (answer_vars (default [] (reference_docs st)) ev).
  by destruct (llm_invoke env answer_prompt _).
Qed.

(** *** The graph run *)

Lemma stream_step env k n st :
  n ≠ END →
  stream env (S k) n st
  = (value ← run_node env n st;
     outputs ← stream env k (edge n) (apply_update st value);
     mret ((node_name n, value) :: outputs)).
Proof. by destruct n. Qed.

Lemma stream_END env k st : stream env k END st = mret [].
Proof. by destruct k. Qed.

Lemma stream_cons env k n st w u w1 outs w2 :
  n ≠ END →
  run_node env n st w = (Ok u, w1) →
  stream env k (edge n) (apply_update st u) w1 = (Ok outs, w2) →
  stream env (S k) n st w = (Ok ((node_name n, u) :: outs), w2).
Proof.
  intros Hn Hu Houts. rewrite stream_step by done.
  unfold mbind, M_bind. by rewrite Hu, Houts.
Qed.

(** A run in which the planner's model call returns and every search
    returns: the three nodes run in order, the answer is the model's
    reply over the deduplicated docs (or the fallback string), and the
    log holds the planner call, one search per query and the answer
    call. *)
Lemma run_workflow_ok env ev w raw :
  llm_invoke env planner_prompt (planner_vars ev) = inr raw →
  searches_return env (parse_queries raw) →
  let docs := first_occurrences (raw_results env (parse_queries raw)) in
  ∃ w', run_workflow env ev w = (Ok (synthesized env docs ev), w')
    ∧ calls w'
      = calls w
        ++ CallLLM planner_prompt (planner_vars ev)
           :: map (λ q, CallSearch q TOP_K) (parse_queries raw)
        ++ [CallLLM answer_prompt (answer_vars docs ev)]
    ∧ contentList w' = contentList w
    ∧ anomaly_file w' = anomaly_file w
    ∧ (∀ l S, sets (mem w) !! l = Some S → sets (mem w') !! l = Some S)
    ∧ iters (mem w') = iters (mem w).
Proof.
  intros Hraw Hs docs. unfold run_workflow, RECURSION_LIMIT, entry_point.
  set (st0 := {| input := Some ev; plan := None; past_steps := [];
                 reference_docs := None; answer := None |}).
  assert (Hp := query_planner_returns env st0 w ev raw eq_refl Hraw).
  set (w1 := add_calls _ w) in Hp.
  set (u1 := {| u_input := Some ev; u_plan := _ |}) in Hp.
  set (st1 := apply_update st0 u1).
  destruct (retriever_ok env st1 w1 (parse_queries raw) ev eq_refl eq_refl Hs)
    as (w2 & Hr & Hc2 & Hl2 & Hf2 & Hm2 & Hi2).
  set (u2 := {| u_input := Some ev; u_plan := _ |}) in Hr.
  set (st2 := apply_update st1 u2).
  assert (Hg := generate_answer_run env st2 w2 ev eq_refl).
  change (default [] (reference_docs st2)) with docs in Hg.
  set (w3 := add_calls _ w2) in Hg.
  exists w3.
  split.
  { assert (Hstream : stream env 50 planner st0 w
                      = (Ok [("planner", u1); ("retriever", u2);
                             ("generate", answer_only (synthesized env docs ev))],
                         w3)).
    { apply (stream_cons env _ planner st0 w u1 w1); [done|exact Hp|].
      apply (stream_cons env _ retriever_node st1 w1 u2 w2); [done|exact Hr|].
      apply (stream_cons env _ generate st2 w2 _ w3); [done|exact Hg|].
      by rewrite stream_END. }
    by rewrite (bind_ok _ _ w _ w3 Hstream). }
  subst w3 w1. simpl. rewrite Hc2, Hl2, Hf2, Hi2. simpl.
  repeat split; auto. by rewrite <- !app_assoc.
Qed.

(** *** What the workflow never touches *)

Lemma quiet_ret {A} (a : A) : quiet (mret a : @M Value Score A).
Proof. intros w. repeat split. exists []. by rewrite app_nil_r. Qed.

Lemma quiet_raise {A} e : quiet (raise e : @M Value Score A).
Proof. intros w. repeat split. exists []. by rewrite app_nil_r. Qed.

Lemma quiet_bind {A B} (c : @M Value Score A) (f : A → M B) :
  quiet c → (∀ a, quiet (f a)) → quiet (c ≫= f).
Proof.
  intros Hc Hf w. unfold mbind, M_bind.
  destruct (Hc w) as (Hfile & Hlist & cs & Hcs & Hnd).
  destruct (c w) as [[a|e] w1]; simpl in *.
  - destruct (Hf a w1) as (Hfile' & Hlist' & cs' & Hcs' & Hnd').
    rewrite Hfile', Hlist', Hcs', Hcs, Hfile, Hlist. repeat split.
    exists (cs ++ cs'). rewrite app_assoc. split; [done|].
    by apply Forall_app.
  - eauto.
Qed.

Lemma quiet_try {A} (c : @M Value Score A) (h : exn → M A) :
  quiet c → (∀ e, quiet (h e)) → quiet (try_except c h).
Proof.
  intros Hc Hh w. unfold try_except.
  destruct (Hc w) as (Hfile & Hlist & cs & Hcs & Hnd).
  destruct (c w) as [[a|e] w1]; simpl in *.
  - eauto.
  - destruct (Hh e w1) as (Hfile' & Hlist' & cs' & Hcs' & Hnd').
    rewrite Hfile', Hlist', Hcs', Hcs, Hfile, Hlist. repeat split.
    exists (cs ++ cs'). rewrite app_assoc. split; [done|].
    by apply Forall_app.
Qed.

Lemma quiet_log (c : @Call Value) :
  (∀ records, c ≠ CallDump records) → quiet (log_call c : @M Value Score ()).
Proof. intros Hc w. repeat split. exists [c]. split; [done|]. by constructor. Qed.

Lemma quiet_with_mem {A} (f : @Mem Value Score → A * Mem) :
  quiet (with_mem f).
Proof.
  intros w. unfold with_mem. destruct (f (mem w)) as [a m]. simpl.
  repeat split. exists []. by rewrite app_nil_r.
Qed.

Lemma quiet_get_item {A} (field : option A) k :
  quiet (get_item field k : @M Value Score A).
Proof. destruct field; [apply quiet_ret|apply quiet_raise]. Qed.

Create HintDb quiet.
Hint Resolve quiet_ret quiet_raise quiet_log quiet_with_mem
  quiet_get_item : quiet.

Ltac quiet_steps :=
  repeat first
    [ solve [auto with quiet]
    | solve [apply quiet_log; intros ? ?; discriminate]
    | apply quiet_bind; [|intro]
    | apply quiet_try; [|intro] ].

Lemma quiet_invoke env p vars : quiet (invoke env p vars).
Proof. unfold invoke. quiet_steps. destruct (llm_invoke _ _ _); quiet_steps. Qed.

Lemma quiet_search env q k : quiet (search env q k).
Proof.
  unfold search. quiet_steps.
  destruct (similarity_search_with_score _ _ _); quiet_steps.
Qed.

Hint Resolve quiet_invoke quiet_search : quiet.

Lemma quiet_search_sum env pl : ∀ acc, quiet (search_sum env pl acc).
Proof.
  induction pl as [|q pl IH]; intros acc; cbn [search_sum]; quiet_steps.
Qed.

Hint Resolve quiet_search_sum : quiet.

Lemma quiet_run_node env n st : quiet (run_node env n st).
Proof.
  destruct n; cbn [run_node];
    unfold query_planner, retriever, generate_answer; quiet_steps.
Qed.

Lemma quiet_stream env k : ∀ n st, quiet (stream env k n st).
Proof.
  induction k as [|k IH]; intros n st.
  - destruct n; cbn [stream]; quiet_steps.
  - destruct n; try (rewrite stream_step by done); cbn [stream];
      quiet_steps; try apply quiet_run_node.
Qed.

(** The graph run reads and writes neither the event file nor
    [chat.contentList], whatever its outcome. *)
Lemma quiet_run_workflow env ev : quiet (run_workflow env ev).
Proof.
  unfold run_workflow. apply quiet_bind; [apply quiet_stream|].
  intros outputs. apply quiet_ret.
Qed.

(** *** The write-back *)

Lemma attach_advisor_not_found ev ans (records : list (gmap string Value)) id :
  ev !! "eventId" = Some id →
  Forall (λ r, matches id r = false) records →
  attach_advisor ev ans records = Raise (KeyError (EventIdNotFound id)).
Proof.
  intros Hid. induction 1 as [|r rest Hr _ IH]; simpl;
    unfold subscript; rewrite Hid; [done|].
  unfold matches in Hr. rewrite Hr.
  unfold subscript in IH. by rewrite IH.
Qed.

Lemma attach_advisor_Ok ev ans (records recs' : list (gmap string Value)) :
  attach_advisor ev ans records = Ok recs' →
  ∃ id i r,
    ev !! "eventId" = Some id ∧ records !! i = Some r
    ∧ matches id r = true
    ∧ (∀ j r', j < i → records !! j = Some r' → matches id r' = false)
    ∧ recs' = <[i := <["ragAdvisor" := py_str ans]> r]> records.
Proof.
  revert recs'. induction records as [|r rest IH]; intros recs'; simpl;
    unfold subscript; destruct (ev !! "eventId") as [id|] eqn:Hid; try done.
  destruct (py_eq (dict_get r "eventId") id) eqn:Hm.
  - intros [= <-]. exists id, 0, r. repeat split; auto. lia.
  - destruct (attach_advisor ev ans rest) as [rest'|e] eqn:Hrest; [|done].
    intros [= <-].
    destruct (IH rest' eq_refl) as (id' & i & r0 & Hid' & Hi & Hr0 & Hfirst & ->).
    simplify_eq. exists id', (S i), r0. repeat split; auto.
    intros [|j] r' Hj; simpl; [by intros [= <-]|].
    apply Hfirst. lia.
Qed.


(** What [run_rag_pipeline] does once the graph run has given its
    answer. *)
Lemma run_rag_pipeline_after env ev w ans w1 :
  run_workflow env ev w = (Ok ans, w1) →
  run_rag_pipeline env ev w
  = match anomaly_file w1 with
    | None => (Raise (FileNotFoundError anomaly_path), w1)
    | Some records =>
        match attach_advisor ev ans records with
        | Ok recs' =>
            (Ok (), {| mem := mem w1; contentList := contentList w1;
                       anomaly_file := Some recs';
                       calls := (calls w1 ++ [CallLoad]) ++ [CallDump recs'] |})
        | Raise e => (Raise e, add_calls [CallLoad] w1)
        end
    end.
Proof.
  intros Hrun. unfold run_rag_pipeline.
  rewrite (bind_ok _ _ _ _ _ Hrun).
  unfold mbind, M_bind, file_exists, json_load, lift_outcome, json_dump, raise,
    add_calls.
  simpl. destruct (anomaly_file w1) as [records|] eqn:Hfile; simpl.
  - rewrite Hfile. simpl.
    destruct (attach_advisor ev ans records); reflexivity.
  - reflexivity.
Qed.

Lemma run_rag_pipeline_raised env ev w e w1 :
  run_workflow env ev w = (Raise e, w1) →
  run_rag_pipeline env ev w = (Raise e, w1).
Proof. intros Hrun. unfold run_rag_pipeline. by rewrite (bind_raise _ _ _ _ _ Hrun). Qed.

(** *** The retriever *)

Lemma raw_results_elem env pl d :
  d ∈ raw_results env pl → ∃ q, q ∈ pl ∧ d ∈ raw_results_of env q.
Proof.
  unfold raw_results. intros Hd%list_elem_of_In%in_concat.
  destruct Hd as (r & Hr%in_map_iff & Hd). destruct Hr as (q & <- & Hq).
  exists q. by split; apply list_elem_of_In.
Qed.

(** C1. The output of the retriever, for any plan (empty or not) whose
    searches return: no two entries have the same [page_content], and
    every entry comes from the raw result list of one of the queries of
    the plan. *)
Theorem retriever_dedup_invariant env st w pl ev :
  plan st = Some pl → input st = Some ev → searches_return env pl →
  ∃ u w' out,
    retriever env st w = (Ok u, w')
    ∧ u_reference_docs u = Some out
    ∧ NoDup (map page_text out)
    ∧ ∀ d, d ∈ out → ∃ q, q ∈ pl ∧ d ∈ raw_results_of env q.
Proof.
  intros Hpl Hin Hs.
  destruct (retriever_ok env st w pl ev Hpl Hin Hs) as (w' & Hrun & _).
  eexists _, w', _. split; [exact Hrun|]. split; [reflexivity|]. split.
  - apply first_unseen_NoDup.
  - intros d Hd. apply first_unseen_elem in Hd as (Hd & _).
    by apply raw_results_elem.
Qed.

(** C2. The retriever puts the per-query result lists one after the other
    in the order of the queries and keeps, of that list, the first
    occurrence of every text, in order: its output is
    [first_occurrences] of the concatenated raw results, a subsequence of
    them. *)
Theorem retriever_first_occurrences env st w pl ev :
  plan st = Some pl → input st = Some ev → searches_return env pl →
  ∃ u w',
    retriever env st w = (Ok u, w')
    ∧ u_reference_docs u = Some (first_occurrences (raw_results env pl))
    ∧ first_occurrences (raw_results env pl) `sublist_of` raw_results env pl.
Proof.
  intros Hpl Hin Hs.
  destruct (retriever_ok env st w pl ev Hpl Hin Hs) as (w' & Hrun & _).
  eexists _, w'. split; [exact Hrun|]. split; [reflexivity|].
  apply first_unseen_sublist.
Qed.

(** C7. Two runs of the retriever, the second one starting in the world
    the first one left: when their raw retrieval results are the same
    list, the deduplicated outputs are the same.  Neither run reads or
    changes [chat.contentList], and every set that was in memory before
    is as it was after both runs: the set a run works on is a new one. *)
Theorem retriever_run_scoped env1 env2 st1 st2 pl1 pl2 ev1 ev2 w :
  plan st1 = Some pl1 → input st1 = Some ev1 → searches_return env1 pl1 →
  plan st2 = Some pl2 → input st2 = Some ev2 → searches_return env2 pl2 →
  raw_results env1 pl1 = raw_results env2 pl2 →
  ∃ u1 w1 u2 w2,
    retriever env1 st1 w = (Ok u1, w1)
    ∧ retriever env2 st2 w1 = (Ok u2, w2)
    ∧ u_reference_docs u1 = Some (first_occurrences (raw_results env1 pl1))
    ∧ u_reference_docs u2 = u_reference_docs u1
    ∧ contentList w2 = contentList w
    ∧ (∀ l S, sets (mem w) !! l = Some S → sets (mem w2) !! l = Some S).
Proof.
  intros Hpl1 Hin1 Hs1 Hpl2 Hin2 Hs2 Hraw.
  destruct (retriever_ok env1 st1 w pl1 ev1 Hpl1 Hin1 Hs1)
    as (w1 & Hrun1 & _ & Hl1 & _ & Hm1 & _).
  destruct (retriever_ok env2 st2 w1 pl2 ev2 Hpl2 Hin2 Hs2)
    as (w2 & Hrun2 & _ & Hl2 & _ & Hm2 & _).
  eexists _, w1, _, w2. split; [exact Hrun1|]. split; [exact Hrun2|].
  simpl. rewrite Hraw, Hl2, Hl1. repeat split; auto.
Qed.

(** *** The planner *)

Lemma usable_line_strip line :
  usable_line line = true → PyStr.strip line ≠ "".
Proof.
  unfold usable_line. intros [Ht _]%andb_prop.
  by destruct (PyStr.strip line).
Qed.

Lemma parse_queries_elem raw q :
  q ∈ parse_queries raw →
  q ≠ "" ∧ ∃ line, line ∈ PyStr.splitlines raw ∧ q = PyStr.strip line.
Proof.
  unfold parse_queries. intros Hq%list_elem_of_In%in_map_iff.
  destruct Hq as (line & <- & [Hline Hu]%filter_In). split.
  - by apply usable_line_strip.
  - exists line. split; [by apply list_elem_of_In|done].
Qed.

(** C4, as the code has it.  When the planner's model call returns, the
    plan is made of the lines of the reply that are neither blank nor a
    preamble line (a line that starts, whatever the case, with
    "event json" or "natural-language questions"), in order, each without
    the whitespace at its two ends.  Every query of the plan is a
    non-empty string; how many there are and whether they differ is what
    the reply gives. *)
Theorem query_planner_plan env st w ev raw :
  input st = Some ev →
  llm_invoke env planner_prompt (planner_vars ev) = inr raw →
  ∃ u w',
    query_planner env st w = (Ok u, w')
    ∧ u_plan u = Some (parse_queries raw)
    ∧ Forall2 trimmed_of (kept_lines (PyStr.splitlines raw)) (parse_queries raw)
    ∧ Forall (λ q, q ≠ "" ∧ ∃ line, line ∈ PyStr.splitlines raw
                                    ∧ q = PyStr.strip line)
             (parse_queries raw).
Proof.
  intros Hin Hraw. eexists _, _.
  split; [exact (query_planner_returns env st w ev raw Hin Hraw)|].
  split; [reflexivity|]. split.
  - rewrite parse_queries_kept. apply Forall2_trimmed.
  - apply Forall_forall. intros q Hq. by apply parse_queries_elem.
Qed.


(** *** Answer generation *)

(** C6. When the model call of the answer stage raises, [generate_answer]
    returns all the same, with the fixed fallback string as its answer;
    and a run that gets to the answer stage ends normally with that
    string as its result. *)
Theorem generate_answer_absorbs_failure env :
  (∀ st w ev detail,
      input st = Some ev →
      llm_invoke env answer_prompt
        (answer_vars (default [] (reference_docs st)) ev) = inl detail →
      ∃ w', generate_answer env st w = (Ok (answer_only fallback_answer), w'))
  ∧ (∀ ev w raw detail,
      llm_invoke env planner_prompt (planner_vars ev) = inr raw →
      searches_return env (parse_queries raw) →
      llm_invoke env answer_prompt
        (answer_vars (first_occurrences (raw_results env (parse_queries raw))) ev)
        = inl detail →
      ∃ w', run_workflow env ev w = (Ok fallback_answer, w')).
Proof.
  split.
  - intros st w ev detail Hin Hfail. eexists.
    rewrite (generate_answer_run env st w ev Hin).
    unfold synthesized. by rewrite Hfail.
  - intros ev w raw detail Hraw Hs Hfail.
    destruct (run_workflow_ok env ev w raw Hraw Hs) as (w' & Hrun & _).
    exists w'. rewrite Hrun. unfold synthesized. by rewrite Hfail.
Qed.

(** *** The write-back *)

(** C5. For an event whose identifier no stored record matches when the
    run gets to the write-back: [run_rag_pipeline] raises the
    [KeyError] of line 144, which is not the error of a model call, the
    records of the store are what they were, and no write of the file
    was made. *)
Theorem run_rag_pipeline_unknown_event env ev w ans w1 records id :
  run_workflow env ev w = (Ok ans, w1) →
  anomaly_file w = Some records →
  ev !! "eventId" = Some id →
  Forall (λ r, matches id r = false) records →
  ∃ w',
    run_rag_pipeline env ev w = (Raise (KeyError (EventIdNotFound id)), w')
    ∧ (∀ detail, KeyError (EventIdNotFound id) ≠ ModelError detail)
    ∧ anomaly_file w' = Some records
    ∧ ∃ cs, calls w' = calls w ++ cs
            ∧ Forall (λ c, ∀ records', c ≠ CallDump records') cs.
Proof.
  intros Hrun Hfile Hid Hnone.
  destruct (quiet_run_workflow env ev w) as (Hf & _ & cs & Hcs & Hnd).
  rewrite Hrun in Hf, Hcs. simpl in Hf, Hcs.
  rewrite (run_rag_pipeline_after env ev w ans w1 Hrun), Hf, Hfile.
  rewrite (attach_advisor_not_found ev ans records id Hid Hnone).
  eexists. split; [reflexivity|]. split; [done|]. simpl.
  split; [by rewrite Hf|].
  exists (cs ++ [CallLoad]). rewrite Hcs, app_assoc. split; [done|].
  apply Forall_app. split; [done|]. by constructor.
Qed.

(** C10. A run that ends normally changes, in the store, the first record
    that matches the event identifier and no other, and on that record
    the field [ragAdvisor] and no other. *)
Theorem run_rag_pipeline_frame env ev w w' records :
  anomaly_file w = Some records →
  run_rag_pipeline env ev w = (Ok (), w') →
  ∃ id i r ans records',
    ev !! "eventId" = Some id
    ∧ records !! i = Some r ∧ matches id r = true
    ∧ (∀ j r', j < i → records !! j = Some r' → matches id r' = false)
    ∧ anomaly_file w' = Some records'
    ∧ length records' = length records
    ∧ (∀ j, j ≠ i → records' !! j = records !! j)
    ∧ records' !! i = Some (<["ragAdvisor" := py_str ans]> r)
    ∧ (∀ k, k ≠ "ragAdvisor" →
            <["ragAdvisor" := py_str ans]> r !! k = r !! k).
Proof.
  intros Hfile Hrun.
  destruct (quiet_run_workflow env ev w) as (Hf & _).
  destruct (run_workflow env ev w) as [[ans|e] w1] eqn:Hwf; simpl in Hf.
  2:{ by rewrite (run_rag_pipeline_raised env ev w e w1 Hwf) in Hrun. }
  rewrite (run_rag_pipeline_after env ev w ans w1 Hwf), Hf, Hfile in Hrun.
  destruct (attach_advisor ev ans records) as [recs'|e] eqn:Hatt; [|done].
  injection Hrun as <-.
  destruct (attach_advisor_Ok ev ans records recs' Hatt)
    as (id & i & r & Hid & Hi & Hm & Hfirst & ->).
  exists id, i, r, ans, (<[i := <["ragAdvisor" := py_str ans]> r]> records).
  repeat split; auto.
  - apply length_insert.
  - intros j Hj. by apply list_lookup_insert_ne.
  - apply list_lookup_insert_eq. by eapply lookup_lt_Some.
  - intros k Hk. by apply lookup_insert_ne.
Qed.

End Workflow.

(** ** The properties at concrete inputs *)

Lemma store_returns planner_reply answer_reply pl :
  searches_return (Ex.env planner_reply answer_reply) pl.
Proof.
  intros q _. simpl. unfold Ex.store.
  destruct (String.eqb q _); eauto.
Qed.

(** Raw results [A; B; A; C] by text give [A; B; C]. *)
Example first_occurrences_ABAC :
  raw_results Ex.env_ok Ex.two_queries = [Ex.A; Ex.B; Ex.A'; Ex.C]
  ∧ first_occurrences [Ex.A; Ex.B; Ex.A'; Ex.C] = [Ex.A; Ex.B; Ex.C].
Proof. split; vm_compute; reflexivity. Qed.

(** The first definition of [check_duplication] would carry what it has
    seen from one call to the next through [contentList]; the typed one,
    called without a set, does not. *)
Example shadowed_definition_carries_state :
  let '(out1, seen) := check_duplication_shadowed [Ex.A; Ex.B] [] in
  let '(out2, _) := check_duplication_shadowed [Ex.A'; Ex.C] seen in
  out1 = [Ex.A; Ex.B] ∧ out2 = [Ex.C]
  ∧ fst (check_duplication (DocList [Ex.A'; Ex.C]) None
           (snd (check_duplication (DocList [Ex.A; Ex.B]) None Ex.empty_mem)))
    = [Ex.A'; Ex.C].
Proof. vm_compute. auto. Qed.

(** Sharing across calls happens when the caller passes its set. *)
Example supplied_set_is_shared :
  let '(out1, m1) :=
    check_duplication (DocList [Ex.A; Ex.B]) (Some 1%positive) Ex.mem1 in
  let '(out2, _) :=
    check_duplication (DocList [Ex.A'; Ex.C]) (Some 1%positive) m1 in
  out1 = [Ex.A] ∧ out2 = [Ex.C].
Proof. vm_compute. auto. Qed.

(** The end-to-end run of the specification: the record of event 542991
    gets the advisory, the other records are as they were. *)
Example end_to_end :
  ∃ w', run_rag_pipeline Ex.env_ok Ex.event Ex.world = (Ok (), w')
        ∧ anomaly_file w'
          = Some (<[1 := <["ragAdvisor" := JStr "Wear PPE in Tank Area A"]>
                           {[ "eventId" := JStr "542991";
                              "status" := JStr "ACTIVATE" ]}]> Ex.records).
Proof. eexists. split; vm_compute; reflexivity. Qed.

Lemma retriever_dedup_invariant_witness :
  ∃ u w' out,
    retriever Ex.env_ok Ex.planned Ex.world = (Ok u, w')
    ∧ u_reference_docs u = Some out
    ∧ NoDup (map page_text out)
    ∧ ∀ d, d ∈ out → ∃ q, q ∈ Ex.two_queries ∧ d ∈ raw_results_of Ex.env_ok q.
Proof.
  apply (retriever_dedup_invariant Ex.env_ok Ex.planned Ex.world
           Ex.two_queries Ex.event);
    [reflexivity | reflexivity | apply store_returns].
Defined.

Lemma retriever_first_occurrences_witness :
  ∃ u w',
    retriever Ex.env_ok Ex.planned Ex.world = (Ok u, w')
    ∧ u_reference_docs u
      = Some (first_occurrences (raw_results Ex.env_ok Ex.two_queries))
    ∧ first_occurrences (raw_results Ex.env_ok Ex.two_queries)
        `sublist_of` raw_results Ex.env_ok Ex.two_queries.
Proof.
  apply (retriever_first_occurrences Ex.env_ok Ex.planned Ex.world
           Ex.two_queries Ex.event);
    [reflexivity | reflexivity | apply store_returns].
Defined.

Lemma retriever_run_scoped_witness :
  ∃ u1 w1 u2 w2,
    retriever Ex.env_ok Ex.planned Ex.world = (Ok u1, w1)
    ∧ retriever Ex.env_ok Ex.planned w1 = (Ok u2, w2)
    ∧ u_reference_docs u1
      = Some (first_occurrences (raw_results Ex.env_ok Ex.two_queries))
    ∧ u_reference_docs u2 = u_reference_docs u1
    ∧ contentList w2 = contentList Ex.world
    ∧ (∀ l S, sets (mem Ex.world) !! l = Some S → sets (mem w2) !! l = Some S).
Proof.
  apply (retriever_run_scoped Ex.env_ok Ex.env_ok Ex.planned Ex.planned
           Ex.two_queries Ex.two_queries Ex.event Ex.event Ex.world);
    [reflexivity | reflexivity | apply store_returns
    | reflexivity | reflexivity | apply store_returns | reflexivity].
Defined.

Lemma check_duplication_supplied_set_witness :
  ∃ m', check_duplication (DocList [Ex.A; Ex.B; Ex.A'; Ex.C])
          (Some 1%positive) Ex.mem1
        = ([Ex.A; Ex.C], m')
    ∧ sets m' !! 1%positive
      = Some ({[ "Keep clear of the loading bay" ]}
              ∪ list_to_set ["Wear PPE in Tank Area A";
                             "Report to the shift supervisor"]).
Proof.
  destruct (check_duplication_supplied_set (Value:=jv) (Score:=Z)
              [Ex.A; Ex.B; Ex.A'; Ex.C] 1%positive
              {[ "Keep clear of the loading bay" ]} Ex.mem1 eq_refl)
    as (m' & Hrun & Hset & _).
  exists m'. split; [exact Hrun | exact Hset].
Defined.

Lemma check_duplication_single_pass_witness :
  ∃ m', check_duplication (DocIter 1%positive) (Some 1%positive) Ex.mem1
        = ([], m')
    ∧ iters m' !! 1%positive = Some []
    ∧ sets m' = sets Ex.mem1.
Proof.
  destruct (check_duplication_single_pass (Value:=jv) (Score:=Z)
              1%positive (Some 1%positive) Ex.mem1)
    as (m' & Hrun & Hit & _ & Hsets).
  exists m'. split; [exact Hrun|]. split; [exact Hit|].
  exact (Hsets 1%positive eq_refl).
Defined.

Lemma query_planner_plan_witness :
  ∃ u w',
    query_planner Ex.env_ok Ex.initial Ex.world = (Ok u, w')
    ∧ u_plan u = Some (parse_queries Ex.three_lines)
    ∧ Forall2 trimmed_of (kept_lines (PyStr.splitlines Ex.three_lines))
        (parse_queries Ex.three_lines)
    ∧ Forall (λ q, q ≠ "" ∧ ∃ line, line ∈ PyStr.splitlines Ex.three_lines
                                    ∧ q = PyStr.strip line)
             (parse_queries Ex.three_lines).
Proof.
  apply (query_planner_plan Ex.env_ok Ex.initial Ex.world Ex.event
           Ex.three_lines); reflexivity.
Defined.

(** The reply of five lines: the preamble line and the blank line are
    left out, the three others are kept in order and trimmed. *)
Example kept_lines_three_lines :
  kept_lines (PyStr.splitlines Ex.three_lines)
  = ["danger zone entry procedure"; "  PPE rules for tank areas  ";
     "who to notify after an intrusion"]
  ∧ parse_queries Ex.three_lines
    = ["danger zone entry procedure"; "PPE rules for tank areas";
       "who to notify after an intrusion"].
Proof. split; vm_compute; reflexivity. Qed.

(** C4 as stated fails: a reply of two equal lines gives a plan of two
    queries that are the same. *)
Lemma query_planner_two_equal_queries :
  ∃ u w',
    query_planner (Ex.env (inr Ex.two_equal_lines) (inr "ok"))
      Ex.initial Ex.world = (Ok u, w')
    ∧ u_plan u = Some ["danger zone entry procedure";
                       "danger zone entry procedure"]
    ∧ ¬ (∃ pl, u_plan u = Some pl ∧ length pl = 3 ∧ NoDup pl).
Proof.
  eexists _, _. split; [vm_compute; reflexivity|]. split; [reflexivity|].
  intros (pl & [= <-] & Hlen & _). discriminate Hlen.
Qed.



Lemma generate_answer_absorbs_failure_witness :
  (∃ w', generate_answer (Ex.env (inr Ex.three_lines) (inl "timed out"))
           Ex.planned Ex.world
         = (Ok (answer_only fallback_answer), w'))
  ∧ (∃ w', run_workflow (Ex.env (inr Ex.three_lines) (inl "timed out"))
             Ex.event Ex.world
           = (Ok "Sorry, an internal error occurred while generating the answer.",
              w')).
Proof.
  destruct (generate_answer_absorbs_failure
              (Ex.env (inr Ex.three_lines) (inl "timed out"))) as [Hnode Hrun].
  split.
  - apply (Hnode Ex.planned Ex.world Ex.event "timed out"); reflexivity.
  - apply (Hrun Ex.event Ex.world Ex.three_lines "timed out");
      [reflexivity | apply store_returns | reflexivity].
Defined.

Lemma run_rag_pipeline_unknown_event_witness :
  ∃ w',
    run_rag_pipeline Ex.env_ok Ex.unknown_event Ex.world
    = (Raise (KeyError (EventIdNotFound (JStr "999999"))), w')
    ∧ anomaly_file w' = Some Ex.records.
Proof.
  destruct (run_workflow Ex.env_ok Ex.unknown_event Ex.world)
    as [[ans|e] w1] eqn:Hwf; [|vm_compute in Hwf; discriminate].
  destruct (run_rag_pipeline_unknown_event Ex.env_ok Ex.unknown_event Ex.world
              ans w1 Ex.records (JStr "999999") Hwf eq_refl eq_refl)
    as (w' & Hrun & _ & Hfile & _).
  { repeat constructor. }
  exists w'. split; [exact Hrun | exact Hfile].
Defined.

Lemma run_rag_pipeline_frame_witness :
  ∃ w' id i r ans records',
    run_rag_pipeline Ex.env_ok Ex.event Ex.world = (Ok (), w')
    ∧ Ex.event !! "eventId" = Some id
    ∧ Ex.records !! i = Some r ∧ matches id r = true
    ∧ anomaly_file w' = Some records'
    ∧ length records' = length Ex.records
    ∧ (∀ j, j ≠ i → records' !! j = Ex.records !! j)
    ∧ records' !! i = Some (<["ragAdvisor" := py_str ans]> r).
Proof.
  destruct (run_rag_pipeline Ex.env_ok Ex.event Ex.world)
    as [[[]|e] w'] eqn:Hrun; [|vm_compute in Hrun; discriminate].
  destruct (run_rag_pipeline_frame Ex.env_ok Ex.event Ex.world w' Ex.records
              eq_refl Hrun)
    as (id & i & r & ans & records' & Hid & Hi & Hm & _ & Hfile & Hlen & Hfr & Hnew & _).
  exists w', id, i, r, ans, records'. repeat split; auto.
Defined.

(** * Further properties *)

(** ** [check_duplication], calls one after the other *)

Section DedupCompose.
Context {Value Score : Type}.
Implicit Types (docs earlier acc : list (@DocTuple Value Score)).
Implicit Types (m : @Mem Value Score) (S : gset string) (s l : loc).

Lemma check_duplication_loop_acc s docs : ∀ acc m,
  check_duplication_loop s docs acc m
  = (acc ++ (check_duplication_loop s docs [] m).1,
     (check_duplication_loop s docs [] m).2).
Proof.
  induction docs as [|d rest IH]; intros acc m; simpl.
  - by rewrite app_nil_r.
  - case_bool_decide; [apply IH|].
    rewrite (IH (acc ++ [d])), (IH [d]). simpl. by rewrite <- app_assoc.
Qed.

Lemma check_duplication_loop_app s docs1 docs2 : ∀ acc m,
  check_duplication_loop s (docs1 ++ docs2) acc m
  = check_duplication_loop s docs2
      (check_duplication_loop s docs1 acc m).1
      (check_duplication_loop s docs1 acc m).2.
Proof.
  induction docs1 as [|d rest IH]; intros acc m; simpl; [done|].
  case_bool_decide; apply IH.
Qed.

Lemma check_duplication_loop_all_seen s docs : ∀ acc m,
  (∀ d, d ∈ docs → page_text d ∈ set_at m s) →
  check_duplication_loop s docs acc m = (acc, m).
Proof.
  induction docs as [|d rest IH]; intros acc m Hseen; simpl; [done|].
  rewrite bool_decide_true by (apply Hseen; set_solver).
  apply IH. intros d' Hd'. apply Hseen. set_solver.
Qed.

(** Every doc of the list has its text in [S], among the earlier docs or
    among the docs that are kept. *)
Lemma first_unseen_covers S docs : ∀ earlier d,
  d ∈ docs →
  page_text d ∈ S ∨ page_text d ∈ map page_text earlier
  ∨ page_text d ∈ map page_text (first_unseen S earlier docs).
Proof.
  induction docs as [|x rest IH]; intros earlier d; [by intros ?%elem_of_nil|].
  assert (Hx : page_text x ∈ S ∨ page_text x ∈ map page_text earlier
               ∨ page_text x ∈ map page_text (first_unseen S earlier (x :: rest))).
  { simpl. case_bool_decide as Hk.
    - right. right. simpl. set_solver.
    - destruct (decide (page_text x ∈ S)); [by left|].
      destruct (decide (page_text x ∈ map page_text earlier)); [by right; left|].
      destruct Hk. by split. }
  intros [->|Hd]%elem_of_cons; [exact Hx|].
  destruct (IH (earlier ++ [x]) d Hd) as [H|[H|H]].
  - by left.
  - rewrite map_app in H. apply elem_of_app in H as [H|H]; [by right; left|].
    simpl in H. apply list_elem_of_singleton in H. by rewrite H.
  - right. right. simpl. case_bool_decide; simpl; set_solver.
Qed.

Lemma first_unseen_all S docs : ∀ earlier,
  NoDup (map page_text docs) →
  (∀ d, d ∈ docs → (page_text d ∉ S) ∧ (page_text d ∉ map page_text earlier)) →
  first_unseen S earlier docs = docs.
Proof.
  induction docs as [|x rest IH]; intros earlier Hnd Hnew; simpl; [done|].
  simpl in Hnd. apply NoDup_cons in Hnd as [Hx Hnd].
  rewrite bool_decide_true by (apply Hnew; set_solver).
  f_equal. apply IH; [done|]. intros d Hd.
  destruct (Hnew d) as [HS He]; [set_solver|]. split; [done|].
  rewrite map_app. intros [H|H]%elem_of_app; [done|].
  simpl in H. apply list_elem_of_singleton in H.
  apply Hx. rewrite <- H. apply list_elem_of_In, in_map, list_elem_of_In, Hd.
Qed.

(** X1. Deduplicating the list [docs1 ++ docs2] against a set is the
    same as deduplicating [docs1] and then [docs2] against that same set:
    the result is the two results one after the other and the memory at
    the end is the same. *)
Theorem check_duplication_app docs1 docs2 s m :
  check_duplication (DocList (docs1 ++ docs2)) (Some s) m
  = ((check_duplication (DocList docs1) (Some s) m).1
     ++ (check_duplication (DocList docs2) (Some s)
           (check_duplication (DocList docs1) (Some s) m).2).1,
     (check_duplication (DocList docs2) (Some s)
        (check_duplication (DocList docs1) (Some s) m).2).2).
Proof.
  unfold check_duplication. simpl.
  rewrite check_duplication_loop_app.
  by rewrite check_duplication_loop_acc.
Qed.

(** X2. A second call on the same list with the same caller-supplied set
    returns nothing and changes nothing: after the first call every text of
    the list is in the set. *)
Theorem check_duplication_again_empty docs s S m :
  sets m !! s = Some S →
  ∃ out m1,
    check_duplication (DocList docs) (Some s) m = (out, m1)
    ∧ check_duplication (DocList docs) (Some s) m1 = ([], m1).
Proof.
  intros HS. unfold check_duplication. simpl.
  destruct (check_duplication_loop_spec s S docs [] [] m)
    as (m1 & Hrun & Hset & _).
  { rewrite (set_at_lookup _ _ _ HS). simpl. set_solver. }
  exists (first_unseen S [] docs), m1. split; [exact Hrun|].
  apply check_duplication_loop_all_seen. intros d Hd.
  rewrite Hset, (set_at_lookup _ _ _ HS).
  destruct (first_unseen_covers S docs [] d Hd) as [H|[H|H]].
  - set_solver.
  - simpl in H. by apply elem_of_nil in H.
  - apply elem_of_union_r. by apply elem_of_list_to_set.
Qed.

(** X3. With a caller-supplied set [S], nothing is dropped exactly when
    the texts of the list are pairwise different and none of them is in
    [S] (the case the code logs as "no duplication"). *)
Theorem check_duplication_keeps_all_iff docs s S m :
  sets m !! s = Some S →
  (check_duplication (DocList docs) (Some s) m).1 = docs
  ↔ NoDup (map page_text docs) ∧ ∀ d, d ∈ docs → page_text d ∉ S.
Proof.
  intros HS. unfold check_duplication. simpl.
  destruct (check_duplication_loop_spec s S docs [] [] m) as (m1 & Hrun & _).
  { rewrite (set_at_lookup _ _ _ HS). simpl. set_solver. }
  rewrite Hrun. simpl. split.
  - intros Heq. split.
    + rewrite <- Heq. apply first_unseen_NoDup.
    + intros d Hd. rewrite <- Heq in Hd.
      by apply first_unseen_elem in Hd as (_ & Hd & _).
  - intros [Hnd Hnew]. apply first_unseen_all; [done|].
    intros d Hd. split; [by apply Hnew|]. simpl. by intros ?%elem_of_nil.
Qed.

Lemma check_duplication_shadowed_loop_spec S docs : ∀ earlier acc cl,
  list_to_set cl = S ∪ list_to_set (map page_text earlier) →
  check_duplication_shadowed_loop docs acc cl
  = (acc ++ first_unseen S earlier docs,
     cl ++ map page_text (first_unseen S earlier docs)).
Proof.
  induction docs as [|d rest IH]; intros earlier acc cl Hinv; simpl.
  - by rewrite !app_nil_r.
  - assert (Hmem : page_text d ∈ cl
                   ↔ page_text d ∈ S ∨ page_text d ∈ map page_text earlier).
    { rewrite <- (elem_of_list_to_set (C:=gset string)), Hinv, elem_of_union.
      by rewrite elem_of_list_to_set. }
    case_bool_decide as Hin.
    + rewrite bool_decide_false by (intros [? ?]; apply Hmem in Hin; tauto).
      apply IH. rewrite Hinv, map_app, list_to_set_app_L.
      apply Hmem in Hin. simpl.
      assert (page_text d ∈ S ∪ list_to_set (C:=gset string) (map page_text earlier)).
      { apply elem_of_union. rewrite elem_of_list_to_set. tauto. }
      set_solver.
    + rewrite bool_decide_true by (split; intros ?; apply Hin, Hmem; tauto).
      rewrite (IH (earlier ++ [d]) (acc ++ [d]) (cl ++ [page_text d])).
      * simpl. by rewrite <- !app_assoc.
      * rewrite list_to_set_app_L, Hinv, map_app, list_to_set_app_L. simpl.
        set_solver.
Qed.

(** X4. The first (shadowed) [check_duplication] keeps the docs whose
    text is neither in [contentList] nor the text of an earlier doc, and
    appends the texts of the kept docs to [contentList], in order; a
    [contentList] without repetition stays without repetition. *)
Theorem check_duplication_shadowed_spec docs (cl : list string) :
  let out := first_unseen (list_to_set cl) [] docs in
  check_duplication_shadowed docs cl = (out, cl ++ map page_text out)
  ∧ (NoDup cl → NoDup (cl ++ map page_text out)).
Proof.
  intros out. split.
  - unfold check_duplication_shadowed.
    rewrite (check_duplication_shadowed_loop_spec (list_to_set cl) docs [] [] cl);
      [done|]. simpl. set_solver.
  - intros Hcl. apply NoDup_app. split; [done|]. split.
    + intros t Ht (d & <- & Hd)%list_elem_of_In%in_map_iff.
      apply list_elem_of_In, first_unseen_elem in Hd as (_ & Hd & _).
      apply Hd. by apply elem_of_list_to_set.
    + apply first_unseen_NoDup.
Qed.

End DedupCompose.

(** ** The planner's parsing *)

Section Parsing.

(** X5. Every query of the plan is trimmed (it equals its own [strip],
    so it neither starts nor ends with whitespace) and holds no line
    boundary. *)
Theorem parse_queries_trimmed_single_line raw q :
  q ∈ parse_queries raw → PyStr.strip q = q ∧ single_line q.
Proof.
  unfold parse_queries. intros Hq%list_elem_of_In%in_map_iff.
  destruct Hq as (line & <- & [Hline _]%filter_In). split.
  - apply strip_idem.
  - apply all_chars_rstrip, all_chars_lstrip.
    pose proof (splitlines_from_single_line raw false "" eq_refl) as Hall.
    rewrite Forall_forall in Hall. apply Hall. by apply list_elem_of_In.
Qed.

Lemma space_lower_char c :
  PyStr.is_space c = true →
  PyStr.lower_char c ≠ "e"%char ∧ PyStr.lower_char c ≠ "n"%char.
Proof.
  destruct c as [[] [] [] [] [] [] [] []]; intros H;
    first [discriminate H | split; discriminate].
Qed.

Lemma prefix_head a p b s :
  String.prefix (String a p) (String b s) = true → a = b.
Proof. simpl. by destruct (ascii_dec a b). Qed.

(** X6. The preamble test of line 53 reads the line as it is, not its
    trimmed form: a line that starts with whitespace and is not blank is
    always kept, whatever follows the whitespace. *)
Theorem usable_line_leading_space c rest :
  PyStr.is_space c = true →
  PyStr.strip (String c rest) ≠ "" →
  usable_line (String c rest) = true.
Proof.
  intros Hc Hne. unfold usable_line. apply andb_true_intro. split.
  - by destruct (PyStr.strip (String c rest)).
  - destruct (space_lower_char c Hc) as [He Hn].
    unfold PyStr.startswith_any, PyStr.startswith.
    cbn [existsb PyStr.lower].
    destruct (String.prefix "event json" _) eqn:H1.
    { apply prefix_head in H1. by destruct He. }
    destruct (String.prefix "natural-language questions" _) eqn:H2.
    { apply prefix_head in H2. by destruct Hn. }
    reflexivity.
Qed.

End Parsing.

(** ** Every way a run can end *)

Section Outcomes.
Context {Value : Type} `{!PyObject Value} {Score : Type}.
Implicit Types (env : @Env Value Score) (w : @World Value Score).
Implicit Types (st : @State Value Score) (ev : gmap string Value).
Implicit Types (pl pre post : list string).
Implicit Types (records : list (gmap string Value)).

Lemma stream_raise env k n st w e w1 :
  n ≠ END →
  run_node env n st w = (Raise e, w1) →
  stream env (S k) n st w = (Raise e, w1).
Proof.
  intros Hn He. rewrite stream_step by done.
  unfold mbind, M_bind. by rewrite He.
Qed.

Lemma stream_cons_raise env k n st w u w1 e w2 :
  n ≠ END →
  run_node env n st w = (Ok u, w1) →
  stream env k (edge n) (apply_update st u) w1 = (Raise e, w2) →
  stream env (S k) n st w = (Raise e, w2).
Proof.
  intros Hn Hu He. rewrite stream_step by done.
  unfold mbind, M_bind. by rewrite Hu, He.
Qed.

Lemma search_raises env q d w :
  similarity_search_with_score env q TOP_K = inl d →
  search env q TOP_K w
  = (Raise (VectorStoreError d), add_calls [CallSearch q TOP_K] w).
Proof. intros Hd. unfold search, mbind, M_bind. simpl. by rewrite Hd. Qed.

(** The searches stop at the first one that raises. *)
Lemma search_sum_fails env pre q post d :
  searches_return env pre →
  similarity_search_with_score env q TOP_K = inl d →
  ∀ acc w,
    search_sum env (pre ++ q :: post) acc w
    = (Raise (VectorStoreError d),
       add_calls (map (λ q, CallSearch q TOP_K) (pre ++ [q])) w).
Proof.
  intros Hs Hd. induction pre as [|p pre IH]; intros acc w; simpl.
  - by rewrite (bind_raise _ _ _ _ _ (search_raises _ _ _ w Hd)).
  - destruct (Hs p) as [r Hr]; [set_solver|].
    rewrite (bind_ok _ _ _ _ _ (search_returns _ _ _ w Hr)).
    rewrite IH by (intros q' Hq'; apply Hs; set_solver).
    by rewrite add_calls_app.
Qed.

Lemma searches_cases env pl :
  searches_return env pl
  ∨ ∃ pre q post d,
      pl = pre ++ q :: post ∧ searches_return env pre
      ∧ similarity_search_with_score env q TOP_K = inl d.
Proof.
  induction pl as [|q pl IH].
  - left. by intros q ?%elem_of_nil.
  - destruct (similarity_search_with_score env q TOP_K) as [d|r] eqn:Hq.
    + right. exists [], q, pl, d. repeat split; [|done].
      by intros q' ?%elem_of_nil.
    + destruct IH as [Hall | (pre & q' & post & d & -> & Hpre & Hd)].
      * left. intros q' [->|Hq']%elem_of_cons; eauto.
      * right. exists (q :: pre), q', post, d. repeat split; [|done].
        intros q'' [->|Hq'']%elem_of_cons; eauto.
Qed.

Lemma retriever_raises env st w pre q post d :
  plan st = Some (pre ++ q :: post) →
  searches_return env pre →
  similarity_search_with_score env q TOP_K = inl d →
  retriever env st w
  = (Raise (VectorStoreError d),
     add_calls (map (λ q, CallSearch q TOP_K) (pre ++ [q])) w).
Proof.
  intros Hpl Hs Hd. unfold retriever. rewrite Hpl. simpl.
  unfold mbind at 1, M_bind at 1. simpl.
  by rewrite (bind_raise _ _ _ _ _ (search_sum_fails env pre q post d Hs Hd [] _)).
Qed.

Lemma run_workflow_planner_raises env ev w d :
  llm_invoke env planner_prompt (planner_vars ev) = inl d →
  run_workflow env ev w
  = (Raise (ModelError d),
     add_calls [CallLLM planner_prompt (planner_vars ev)] w).
Proof.
  intros Hd. unfold run_workflow, RECURSION_LIMIT, entry_point.
  apply bind_raise. apply stream_raise; [done|].
  by apply query_planner_raises.
Qed.

Lemma run_workflow_search_raises env ev w raw pre q post d :
  llm_invoke env planner_prompt (planner_vars ev) = inr raw →
  parse_queries raw = pre ++ q :: post →
  searches_return env pre →
  similarity_search_with_score env q TOP_K = inl d →
  run_workflow env ev w
  = (Raise (VectorStoreError d),
     add_calls (CallLLM planner_prompt (planner_vars ev)
                :: map (λ q, CallSearch q TOP_K) (pre ++ [q])) w).
Proof.
  intros Hraw Hpl Hs Hd. unfold run_workflow, RECURSION_LIMIT, entry_point.
  apply bind_raise.
  eapply stream_cons_raise; [done|by apply query_planner_returns|].
  simpl edge. rewrite (stream_raise _ _ _ _ _ (VectorStoreError d)
    (add_calls (map (λ q, CallSearch q TOP_K) (pre ++ [q]))
       (add_calls [CallLLM planner_prompt (planner_vars ev)] w))).
  - by rewrite add_calls_app.
  - done.
  - apply retriever_raises with (post := post); [|done|done].
    simpl. by rewrite Hpl.
Qed.

(** X7. When the planner's model call raises, the run raises that error:
    the log holds the planner call and nothing else (no search, no answer
    call, no read or write of the event file) and the store is as
    before. *)
Theorem run_rag_pipeline_planner_failure env ev w d :
  llm_invoke env planner_prompt (planner_vars ev) = inl d →
  run_rag_pipeline env ev w
  = (Raise (ModelError d),
     add_calls [CallLLM planner_prompt (planner_vars ev)] w).
Proof.
  intros Hd. apply run_rag_pipeline_raised.
  by apply run_workflow_planner_raises.
Qed.

(** X8. When a search raises, the run raises the store's error at once:
    the searches logged are those of the queries up to the failing one,
    the queries after it are not searched, the answer model is not
    called and the event file is neither read nor written. *)
Theorem run_rag_pipeline_search_failure env ev w raw pre q post d :
  llm_invoke env planner_prompt (planner_vars ev) = inr raw →
  parse_queries raw = pre ++ q :: post →
  searches_return env pre →
  similarity_search_with_score env q TOP_K = inl d →
  run_rag_pipeline env ev w
  = (Raise (VectorStoreError d),
     add_calls (CallLLM planner_prompt (planner_vars ev)
                :: map (λ q, CallSearch q TOP_K) (pre ++ [q])) w).
Proof.
  intros Hraw Hpl Hs Hd. apply run_rag_pipeline_raised.
  by apply run_workflow_search_raises with (raw := raw) (post := post).
Qed.

(** X9. Whenever the graph run returns normally, what it returns is
    the model's answer over the deduplicated docs of the plan, or the
    fallback string when the answer call raised: the planner's model call
    and every search of the plan have returned, and the placeholder of
    line 126 never stands in for an answer.  (The building of the chat
    client and of the store client is not part of the embedding; a run in
    which it fails does not return normally.) *)
Theorem run_workflow_returns_answer env ev w a w' :
  run_workflow env ev w = (Ok a, w') →
  ∃ raw, llm_invoke env planner_prompt (planner_vars ev) = inr raw
         ∧ searches_return env (parse_queries raw)
         ∧ a = synthesized env
                 (first_occurrences (raw_results env (parse_queries raw)))
                 ev.
Proof.
  intros Hrun.
  destruct (llm_invoke env planner_prompt (planner_vars ev)) as [d|raw] eqn:Hp.
  - by rewrite (run_workflow_planner_raises env ev w d Hp) in Hrun.
  - destruct (searches_cases env (parse_queries raw))
      as [Hall | (pre & q & post & d & Hpl & Hpre & Hd)].
    + destruct (run_workflow_ok env ev w raw Hp Hall) as (w1 & Hok & _).
      rewrite Hok in Hrun. injection Hrun as <- <-. eauto.
    + by rewrite (run_workflow_search_raises env ev w raw pre q post d
                    Hp Hpl Hpre Hd) in Hrun.
Qed.



(** X11. With the event file missing, the run raises
    [FileNotFoundError] and creates no file; the check comes after the
    graph run, so the model and the store have been called all the
    same. *)
Theorem run_rag_pipeline_missing_file env ev w raw :
  llm_invoke env planner_prompt (planner_vars ev) = inr raw →
  searches_return env (parse_queries raw) →
  anomaly_file w = None →
  let docs := first_occurrences (raw_results env (parse_queries raw)) in
  ∃ w', run_rag_pipeline env ev w
        = (Raise (FileNotFoundError anomaly_path), w')
    ∧ anomaly_file w' = None
    ∧ calls w'
      = calls w
        ++ CallLLM planner_prompt (planner_vars ev)
           :: map (λ q, CallSearch q TOP_K) (parse_queries raw)
        ++ [CallLLM answer_prompt (answer_vars docs ev)].
Proof.
  intros Hraw Hs Hfile docs.
  destruct (run_workflow_ok env ev w raw Hraw Hs)
    as (w1 & Hrun & Hc & _ & Hf & _).
  rewrite (run_rag_pipeline_after env ev w _ w1 Hrun), Hf, Hfile.
  exists w1. repeat split; [by rewrite Hf|exact Hc].
Qed.

(** X12. For an event without the key [eventId], a run that reaches the
    write-back raises [KeyError('eventId')], whether the store holds
    records or none; the file is read and not written. *)
Theorem run_rag_pipeline_missing_event_id env ev w ans w1 records :
  run_workflow env ev w = (Ok ans, w1) →
  anomaly_file w = Some records →
  ev !! "eventId" = None →
  run_rag_pipeline env ev w
  = (Raise (KeyError (MissingKey "eventId")), add_calls [CallLoad] w1)
  ∧ anomaly_file w1 = Some records.
Proof.
  intros Hrun Hfile Hid.
  destruct (quiet_run_workflow env ev w) as (Hf & _).
  rewrite Hrun in Hf. simpl in Hf.
  rewrite (run_rag_pipeline_after env ev w ans w1 Hrun), Hf, Hfile.
  split; [|done].
  destruct records; simpl; unfold subscript; by rewrite Hid.
Qed.


End Outcomes.

(** ** The writers of the event file *)

Section Writers.
Context {Value : Type} `{!PyObject Value}.
Implicit Types (item d : gmap string Value) (f : @DbFile Value).
Implicit Types (items records : list (gmap string Value)).

Lemma any_same_id_cases item items :
  match any_same_id item items with
  | Ok true =>
      ∃ id, item !! "eventId" = Some id
            ∧ Exists (λ d, matches id d = true) items
  | Ok false =>
      (item !! "eventId" = None → items = [])
      ∧ ∀ id, item !! "eventId" = Some id →
              Forall (λ d, matches id d = false) items
  | Raise e =>
      e = KeyError (MissingKey "eventId")
      ∧ item !! "eventId" = None ∧ items ≠ []
  end.
Proof.
  induction items as [|d rest IH]; simpl.
  - split; [done|]. by constructor.
  - unfold subscript. destruct (item !! "eventId") as [id|] eqn:Hid; [|done].
    destruct (py_eq (dict_get d "eventId") id) eqn:Hm.
    + exists id. split; [done|]. by constructor.
    + destruct (any_same_id item rest) as [[|]|e].
      * destruct IH as (id' & [= <-] & Hex). exists id. split; [done|].
        by constructor 2.
      * destruct IH as [_ IH]. split; [done|]. intros id' [= <-].
        constructor; [done|]. by apply IH.
      * by destruct IH as (_ & ? & _).
Qed.



(** X14. Whenever [append_to_dummy_db] returns normally, on a file in
    one of the four states of [DbFile], no stored record has been changed
    or removed.  Either a record with the item's identifier was there and
    the file is untouched, or no record had it and the file holds the old
    records followed by the item; a missing file, text that is not JSON
    and a JSON value that is not a list count as no records, so they are
    replaced by the one item. *)
Theorem append_to_dummy_db_result item f f' :
  append_to_dummy_db item f = (Ok (), f') →
  load_db f `prefix_of` load_db f'
  ∧ ((f' = f ∧ ∃ id, item !! "eventId" = Some id
                     ∧ Exists (λ d, matches id d = true) (load_db f))
     ∨ (f' = Items (load_db f ++ [item])
        ∧ ∀ id, item !! "eventId" = Some id →
                Forall (λ d, matches id d = false) (load_db f))).
Proof.
  unfold append_to_dummy_db, save_db.
  pose proof (any_same_id_cases item (load_db f)) as Hc.
  destruct (any_same_id item (load_db f)) as [[|]|e]; intros [= <-].
  - split; [done|]. left. split; [done|]. exact Hc.
  - split; [by apply prefix_app_r|]. right. split; [done|]. apply Hc.
Qed.


(** X16. If the identifiers of the stored records are pairwise
    different, they still are after [append_to_dummy_db]. *)
Theorem append_to_dummy_db_distinct_ids item f f' :
  distinct_ids (load_db f) →
  append_to_dummy_db item f = (Ok (), f') →
  distinct_ids (load_db f').
Proof.
  intros Hd. unfold append_to_dummy_db, save_db.
  pose proof (any_same_id_cases item (load_db f)) as Hc.
  destruct (any_same_id item (load_db f)) as [[|]|e]; intros [= <-]; [done|].
  simpl. destruct Hc as [Hnone Hsome].
  intros i j ri rj Hij Hi Hj.
  assert (Hjlen : j < length (load_db f ++ [item])) by (by eapply lookup_lt_Some).
  rewrite length_app in Hjlen. simpl in Hjlen.
  destruct (decide (j < length (load_db f))) as [Hlt|Hge].
  - rewrite lookup_app_l in Hi, Hj by lia. by apply (Hd i j).
  - assert (j = length (load_db f)) as -> by lia.
    rewrite lookup_app_l in Hi by lia.
    rewrite list_lookup_middle in Hj by done. injection Hj as <-.
    destruct (item !! "eventId") as [id|] eqn:Hid.
    + specialize (Hsome id eq_refl). rewrite Forall_forall in Hsome.
      unfold dict_get at 2. rewrite Hid. simpl.
      apply (Hsome ri). by eapply list_elem_of_lookup_2.
    + rewrite (Hnone eq_refl) in Hi. by rewrite lookup_nil in Hi.
Qed.


(** X18. [generate_message] returns a message exactly for the five
    event types of [EVENT_TYPES]; for any other type it raises
    [KeyError] with that type. *)
Theorem generate_message_event_types
    (event_type roi_id worker vehicle location : string) :
  match generate_message (Value:=Value)
          event_type roi_id worker vehicle location with
  | Ok _ => event_type ∈ EVENT_TYPES
  | Raise e =>
      (event_type ∉ EVENT_TYPES) ∧ e = KeyError (MissingKey event_type)
  end.
Proof.
  unfold generate_message, templates, EVENT_TYPES.
  repeat (rewrite lookup_insert; case_decide;
          [subst event_type; simpl; set_solver|]).
  rewrite lookup_empty. split; [|done]. set_solver.
Qed.

End Writers.

Section WritersAndPipeline.
Context {Value : Type} `{!PyObject Value} {Score : Type}.


End WritersAndPipeline.

(** ** The further properties at concrete inputs *)

Lemma check_duplication_again_empty_witness :
  ∃ out m1,
    check_duplication (DocList [Ex.A; Ex.B; Ex.A'; Ex.C])
      (Some 1%positive) Ex.mem1 = (out, m1)
    ∧ check_duplication (DocList [Ex.A; Ex.B; Ex.A'; Ex.C])
        (Some 1%positive) m1 = ([], m1).
Proof.
  exact (check_duplication_again_empty (Value:=jv) (Score:=Z)
           [Ex.A; Ex.B; Ex.A'; Ex.C] 1%positive
           {[ "Keep clear of the loading bay" ]} Ex.mem1 eq_refl).
Defined.

Lemma check_duplication_keeps_all_iff_witness :
  NoDup (map page_text [Ex.A; Ex.C])
  ∧ ∀ d, d ∈ [Ex.A; Ex.C] →
         page_text d ∉ ({[ "Keep clear of the loading bay" ]} : gset string).
Proof.
  apply (check_duplication_keeps_all_iff (Value:=jv) (Score:=Z)
           [Ex.A; Ex.C] 1%positive
           {[ "Keep clear of the loading bay" ]} Ex.mem1 eq_refl).
  vm_compute. reflexivity.
Defined.

Lemma check_duplication_shadowed_spec_witness :
  let cl := ["Keep clear of the loading bay"] in
  let out := first_unseen (list_to_set cl) [] [Ex.A; Ex.B; Ex.A'; Ex.C] in
  check_duplication_shadowed [Ex.A; Ex.B; Ex.A'; Ex.C] cl
  = (out, cl ++ map page_text out)
  ∧ NoDup (cl ++ map page_text out).
Proof.
  intros cl out.
  destruct (check_duplication_shadowed_spec (Value:=jv) (Score:=Z)
              [Ex.A; Ex.B; Ex.A'; Ex.C] cl) as [Hrun Hnd].
  split; [exact Hrun|]. apply Hnd. apply NoDup_singleton.
Defined.

Lemma parse_queries_trimmed_single_line_witness :
  PyStr.strip "PPE rules for tank areas" = "PPE rules for tank areas"
  ∧ single_line "PPE rules for tank areas".
Proof.
  apply (parse_queries_trimmed_single_line Ex.three_lines).
  apply list_elem_of_In. vm_compute. tauto.
Defined.

Lemma usable_line_leading_space_witness :
  usable_line "  Event JSON: restated" = true.
Proof.
  apply (usable_line_leading_space " "%char " Event JSON: restated");
    [reflexivity | vm_compute; discriminate].
Defined.

Lemma run_rag_pipeline_planner_failure_witness :
  run_rag_pipeline ExStore.env_planner_fails Ex.event Ex.world
  = (Raise (ModelError "model unreachable"),
     add_calls [CallLLM planner_prompt (planner_vars Ex.event)] Ex.world).
Proof.
  apply (run_rag_pipeline_planner_failure ExStore.env_planner_fails
           Ex.event Ex.world "model unreachable").
  reflexivity.
Defined.

Lemma run_rag_pipeline_search_failure_witness :
  run_rag_pipeline ExStore.env_search_fails Ex.event Ex.world
  = (Raise (VectorStoreError "store unreachable"),
     add_calls [CallLLM planner_prompt (planner_vars Ex.event);
                CallSearch "danger zone entry procedure" TOP_K;
                CallSearch "PPE rules for tank areas" TOP_K] Ex.world).
Proof.
  apply (run_rag_pipeline_search_failure ExStore.env_search_fails
           Ex.event Ex.world Ex.three_lines
           ["danger zone entry procedure"] "PPE rules for tank areas"
           ["who to notify after an intrusion"] "store unreachable");
    [reflexivity | vm_compute; reflexivity | | reflexivity].
  intros q Hq. apply list_elem_of_singleton in Hq. subst q.
  eexists. reflexivity.
Defined.

Lemma run_workflow_returns_answer_witness :
  ∃ a w',
    run_workflow Ex.env_ok Ex.event Ex.world = (Ok a, w')
    ∧ ∃ raw,
        llm_invoke Ex.env_ok planner_prompt (planner_vars Ex.event) = inr raw
        ∧ searches_return Ex.env_ok (parse_queries raw)
        ∧ a = synthesized Ex.env_ok
                (first_occurrences (raw_results Ex.env_ok (parse_queries raw)))
                Ex.event.
Proof.
  destruct (run_workflow Ex.env_ok Ex.event Ex.world) as [[a|e] w'] eqn:Hrun;
    [|vm_compute in Hrun; discriminate].
  exists a, w'. split; [reflexivity|].
  exact (run_workflow_returns_answer Ex.env_ok Ex.event Ex.world a w' Hrun).
Defined.




Lemma run_rag_pipeline_missing_file_witness :
  ∃ w', run_rag_pipeline Ex.env_ok Ex.event ExStore.no_file_world
        = (Raise (FileNotFoundError anomaly_path), w')
    ∧ anomaly_file w' = None.
Proof.
  destruct (run_rag_pipeline_missing_file Ex.env_ok Ex.event
              ExStore.no_file_world Ex.three_lines
              eq_refl (store_returns _ _ _) eq_refl)
    as (w' & Hrun & Hfile & _).
  exists w'. split; [exact Hrun | exact Hfile].
Defined.

Lemma run_rag_pipeline_missing_event_id_witness :
  ∃ w1,
    run_rag_pipeline Ex.env_ok ExStore.anonymous_event Ex.world
    = (Raise (KeyError (MissingKey "eventId")), add_calls [CallLoad] w1)
    ∧ anomaly_file w1 = Some Ex.records.
Proof.
  destruct (run_workflow Ex.env_ok ExStore.anonymous_event Ex.world)
    as [[ans|e] w1] eqn:Hwf; [|vm_compute in Hwf; discriminate].
  exists w1.
  exact (run_rag_pipeline_missing_event_id Ex.env_ok ExStore.anonymous_event
           Ex.world ans w1 Ex.records Hwf eq_refl eq_refl).
Defined.


Lemma append_to_dummy_db_result_witness :
  load_db (Items Ex.records)
    `prefix_of` load_db (Items (Ex.records ++ [ExStore.new_item]))
  ∧ ((Items (Ex.records ++ [ExStore.new_item]) = Items Ex.records
      ∧ ∃ id, ExStore.new_item !! "eventId" = Some id
              ∧ Exists (λ d, matches id d = true) (load_db (Items Ex.records)))
     ∨ (Items (Ex.records ++ [ExStore.new_item])
        = Items (load_db (Items Ex.records) ++ [ExStore.new_item])
        ∧ ∀ id, ExStore.new_item !! "eventId" = Some id →
                Forall (λ d, matches id d = false)
                  (load_db (Items Ex.records)))).
Proof.
  exact (append_to_dummy_db_result ExStore.new_item (Items Ex.records)
           (Items (Ex.records ++ [ExStore.new_item])) eq_refl).
Defined.


Lemma one_record_distinct_ids (r : gmap string jv) : distinct_ids [r].
Proof.
  intros i j ri rj Hij Hi Hj. apply lookup_lt_Some in Hj. simpl in Hj. lia.
Qed.

Lemma append_to_dummy_db_distinct_ids_witness :
  distinct_ids
    (load_db (Items [ {[ "eventId" := JStr "500001" ]}; ExStore.new_item ])).
Proof.
  apply (append_to_dummy_db_distinct_ids ExStore.new_item
           (Items [ {[ "eventId" := JStr "500001" ]} ]));
    [apply one_record_distinct_ids | reflexivity].
Defined.


